(** * pyhomematic: the device / channel entity model of [devicetypes/generic.py]

    A shallow embedding of the classes [HMGeneric], [HMChannel] and [HMDevice]:
    Python objects become records, methods become computations in a small
    state-and-exception monad, and everything outside the module (the XML-RPC
    proxy, the registered event callbacks) is an oracle whose every use is
    recorded in a trace. *)

From Stdlib Require Import ZArith String List Bool Lia.
From stdpp Require Import base strings gmap list fin_maps.

#[local] Set Warnings "-register-all".

Local Open Scope Z_scope.
Local Open Scope string_scope.
Local Open Scope list_scope.

(** ** Python values *)

(** The values that travel through the model: what the proxy returns, what an
    event carries, what a paramset holds.  A [VDict] keeps its items in
    insertion order; lookup takes the first item with the key. *)
Inductive pyval : Type :=
| VNone
| VBool (b : bool)
| VInt (z : Z)
| VStr (s : string)
| VDict (items : list (string * pyval)).

(** Python's truth value testing ([if v:]). *)
Definition truthy (v : pyval) : bool :=
  match v with
  | VNone => false
  | VBool b => b
  | VInt z => negb (z =? 0)%Z
  | VStr s => negb (s =? "")%string
  | VDict items => match items with [] => false | _ :: _ => true end
  end.

Fixpoint assoc_get {A : Type} (k : string) (items : list (string * A)) : option A :=
  match items with
  | [] => None
  | (k', v) :: rest => if (k' =? k)%string then Some v else assoc_get k rest
  end.

(** ** Exceptions and results *)

(** The exceptions the module can meet.  All of them derive from Python's
    [Exception], so an [except Exception] clause catches each one.  [Fault]
    stands for whatever a collaborator (proxy, callback) raises. *)
Inductive exn : Type :=
| NameError (name : string)
| UnboundLocalError (name : string)
| TypeError
| KeyError
| AttributeError
| Fault (msg : string).

Inductive res (A : Type) : Type :=
| Ret (a : A)
| Raise (e : exn).
Arguments Ret {A} a.
Arguments Raise {A} e.

(** [v.get(k)]: defined on dicts only, [None] when the key is missing. *)
Definition py_get (v : pyval) (k : string) : res pyval :=
  match v with
  | VDict items => Ret (default VNone (assoc_get k items))
  | _ => Raise AttributeError
  end.

(** ** The state-and-exception monad

    A computation takes a state and gives a result or an exception together
    with the state it left behind: what a Python statement changed before it
    raised stays changed. *)
Definition M (S A : Type) : Type := S -> res A * S.

Definition ret {S A : Type} (a : A) : M S A := fun s => (Ret a, s).

Definition raise {S A : Type} (e : exn) : M S A := fun s => (Raise e, s).

Definition bind {S A B : Type} (m : M S A) (k : A -> M S B) : M S B :=
  fun s =>
    match m s with
    | (Ret a, s') => k a s'
    | (Raise e, s') => (Raise e, s')
    end.

(** [try: body except Exception as err: handler err] *)
Definition try_except {S A : Type} (body : M S A) (handler : exn -> M S A) : M S A :=
  fun s =>
    match body s with
    | (Ret a, s') => (Ret a, s')
    | (Raise e, s') => handler e s'
    end.

Notation "'let*' x ':=' m 'in' k" := (bind m (fun x => k))
  (at level 10, x name, m at level 100, k at level 200).

(** [for x in l: body x] *)
Fixpoint for_each {S A : Type} (l : list A) (body : A -> M S unit) : M S unit :=
  match l with
  | [] => ret tt
  | x :: rest => let* _ := body x in for_each rest body
  end.

Definition of_res {S A : Type} (r : res A) : M S A := fun s => (r, s).

Definition gets {S A : Type} (f : S -> A) : M S A := fun s => (Ret (f s), s).

Definition modify {S : Type} (f : S -> S) : M S unit := fun s => (Ret tt, f s).

(** Run a computation on a part of the state. *)
Definition zoom {S T A : Type} (get : S -> T) (put : T -> S -> S) (m : M T A) : M S A :=
  fun s => let '(r, t') := m (get s) in (r, put t' s).

(** ** The outside world *)

(** A request to the proxy, addressed by the entity's address. *)
Inductive pcall : Type :=
| PGetValue (address key : string)
| PSetValue (address key : string) (value : pyval)
| PGetParamset (address paramset : string)
| PPutParamset (address paramset : string) (data : list (string * pyval))
| PGetParamsetDescription (address paramset : string).

(** What the model does to the outside, oldest first. *)
Inductive effect : Type :=
| EProxy (call : pcall)
| ECallback (cb : nat) (address interface_id key : string) (value : pyval).

Abbreviation World := (list effect) (only parsing).

(** The proxy answers a request given everything that happened before it. *)
Definition Proxy : Type := list effect -> pcall -> res pyval.

(** A registered listener: a callable with an identity; its body returns or
    raises, and what it does may depend on everything that happened before.
    The listeners taken here are those that do not call back into the entity
    that calls them: they neither call its methods nor touch its attributes,
    its callback list among them.  Every statement about a delivery below is
    about such listeners. *)
Record callback : Type := {
  cb_id : nat;
  cb_body : World -> string -> string -> string -> pyval -> res unit
}.

(** An object handed to [setEventCallback]: only some have [__call__]. *)
Inductive pyobj : Type :=
| Callable (cb : callback)
| NotCallable (v : pyval).

(** ** HMGeneric *)

(** The attributes of [HMGeneric.__init__] that its methods read or write.
    [_PARAMSETS] is [device_description.get('PARAMSETS')]: [None] when the
    description has no such key.  [_proxy] is [None] for a missing handle. *)
Record HMGeneric : Type := {
  _ADDRESS : string;
  _PARAMSETS : option (list string);
  _proxy : option Proxy;
  _paramsets : gmap string pyval;
  _eventcallbacks : list callback;
  _unreach : pyval
}.

Definition PARAM_UNREACH : string := "UNREACH".
Definition PARAMSET_VALUES : string := "VALUES".

Definition set_unreach (v : pyval) (self : HMGeneric) : HMGeneric :=
  {| _ADDRESS := _ADDRESS self; _PARAMSETS := _PARAMSETS self; _proxy := _proxy self;
     _paramsets := _paramsets self; _eventcallbacks := _eventcallbacks self;
     _unreach := v |}.

Definition set_paramset (name : string) (v : pyval) (self : HMGeneric) : HMGeneric :=
  {| _ADDRESS := _ADDRESS self; _PARAMSETS := _PARAMSETS self; _proxy := _proxy self;
     _paramsets := <[name := v]> (_paramsets self);
     _eventcallbacks := _eventcallbacks self; _unreach := _unreach self |}.

Definition append_callback (cb : callback) (self : HMGeneric) : HMGeneric :=
  {| _ADDRESS := _ADDRESS self; _PARAMSETS := _PARAMSETS self; _proxy := _proxy self;
     _paramsets := _paramsets self;
     _eventcallbacks := _eventcallbacks self ++ [cb]; _unreach := _unreach self |}.

(** The state a method of an entity runs in: the entity and the trace. *)
Abbreviation GState := (HMGeneric * list effect)%type (only parsing).

(** [self._proxy.<method>(self._ADDRESS, ...)]: a missing proxy has no such
    attribute; otherwise the request is sent and recorded. *)
Definition call_proxy (request : string -> pcall) : M GState pyval :=
  fun '(self, w) =>
    match _proxy self with
    | None => (Raise AttributeError, (self, w))
    | Some p =>
        let c := request (_ADDRESS self) in
        (p w c, (self, w ++ [EProxy c]))
    end.

Definition setValue (key : string) (value : pyval) : M GState bool :=
  try_except
    (let* _ := call_proxy (fun a => PSetValue a key value) in
     ret true)
    (fun err => ret false).

Definition getValue (key : string) : M GState pyval :=
  try_except
    (let* returnvalue := call_proxy (fun a => PGetValue a key) in
     ret returnvalue)
    (fun err => ret (VBool false)).

(** [callback(self._ADDRESS, interface_id, key, value)] *)
Definition invoke (cb : callback) (interface_id key : string) (value : pyval) : M GState unit :=
  fun '(self, w) =>
    (cb_body cb w (_ADDRESS self) interface_id key value,
     (self, w ++ [ECallback (cb_id cb) (_ADDRESS self) interface_id key value])).

Definition event (interface_id key : string) (value : pyval) : M GState unit :=
  let* _ := (if (key =? PARAM_UNREACH)%string
             then modify (fun '(self, w) => (set_unreach value self, w))
             else ret tt) in
  let* callbacks := gets (fun '(self, _) => _eventcallbacks self) in
  for_each callbacks (fun cb => invoke cb interface_id key value).

Definition updateParamset (paramset : string) : M GState bool :=
  try_except
    (if negb (paramset =? "")%string then
       let* proxy := gets (fun '(self, _) => _proxy self) in
       if (match proxy with Some _ => true | None => false end) then
         let* returnset := call_proxy (fun a => PGetParamset a paramset) in
         if truthy returnset then
           let* _ := modify (fun '(self, w) => (set_paramset paramset returnset self, w)) in
           let* cache := gets (fun '(self, _) => _paramsets self) in
           let* _ :=
             (if bool_decide (cache ≠ ∅) then
                if truthy (default VNone (cache !! PARAMSET_VALUES)) then
                  let* u := of_res (py_get (default VNone (cache !! PARAMSET_VALUES))
                                           PARAM_UNREACH) in
                  modify (fun '(self, w) => (set_unreach u self, w))
                else ret tt
              else ret tt) in
           ret true
         else ret false
       else ret false
     else ret false)
    (fun err => ret false).

(** [for ps in self._PARAMSETS]: iterating [None] is a [TypeError]. *)
Definition iter_PARAMSETS : M GState (list string) :=
  fun '(self, w) =>
    match _PARAMSETS self with
    | Some names => (Ret names, (self, w))
    | None => (Raise TypeError, (self, w))
    end.

Definition updateParamsets : M GState bool :=
  try_except
    (let* names := iter_PARAMSETS in
     let* _ := for_each names (fun ps => let* _ := updateParamset ps in ret tt) in
     ret true)
    (fun err => ret false).

(** [paramset in self._PARAMSETS]: membership in [None] is a [TypeError]. *)
Definition in_PARAMSETS (paramset : string) : M GState bool :=
  let* names := iter_PARAMSETS in
  ret (existsb (fun ps => (ps =? paramset)%string) names).

Definition putParamset (paramset : string) (data : list (string * pyval)) : M GState bool :=
  try_except
    (let* known := in_PARAMSETS paramset in
     if known && (match data with [] => false | _ :: _ => true end) then
       let* _ := call_proxy (fun a => PPutParamset a paramset data) in
       let* _ := updateParamsets in
       ret true
     else ret false)
    (fun err => ret false).

(** The attributes common to every entity, from a device description. *)
Record description : Type := {
  d_ADDRESS : string;
  d_PARAMSETS : option (list string)
}.

Definition HMGeneric_init (device_description : description) (proxy : option Proxy) : HMGeneric :=
  {| _ADDRESS := d_ADDRESS device_description;
     _PARAMSETS := d_PARAMSETS device_description;
     _proxy := proxy;
     _paramsets := ∅;
     _eventcallbacks := [];
     _unreach := VNone |}.

(** ** HMChannel *)

Record HMChannel : Type := {
  ch_generic : HMGeneric;
  _PARENT : pyval;
  _INDEX : pyval
}.

Definition ch_with (g : HMGeneric) (c : HMChannel) : HMChannel :=
  {| ch_generic := g; _PARENT := _PARENT c; _INDEX := _INDEX c |}.

Definition HMChannel_UNREACH (self : HMChannel) : bool :=
  if truthy (_unreach (ch_generic self)) then true else false.

Definition HMChannel_setEventCallback (callback : pyobj) (self : HMChannel) : HMChannel :=
  match callback with
  | Callable cb => ch_with (append_callback cb (ch_generic self)) self
  | NotCallable _ => self
  end.

(** ** HMDevice *)

(** The channel a node table names for a data point: [None] (the device
    itself), ['c'] (the channel the caller gives) or a fixed number. *)
Inductive nodechannel : Type :=
| NcNone
| NcDynamic
| NcFixed (n : Z).

(** [CHILDREN] maps channel numbers to channel objects, each object stored
    under one number only. *)
Record HMDevice : Type := {
  dev_generic : HMGeneric;
  CHILDREN : gmap Z HMChannel;
  _SENSORNODE : gmap string nodechannel;
  _BINARYNODE : gmap string nodechannel;
  _ATTRIBUTENODE : gmap string nodechannel;
  _WRITENODE : gmap string nodechannel
}.

Definition dev_with (g : HMGeneric) (d : HMDevice) : HMDevice :=
  {| dev_generic := g; CHILDREN := CHILDREN d;
     _SENSORNODE := _SENSORNODE d; _BINARYNODE := _BINARYNODE d;
     _ATTRIBUTENODE := _ATTRIBUTENODE d; _WRITENODE := _WRITENODE d |}.

Definition dev_with_children (ch : gmap Z HMChannel) (d : HMDevice) : HMDevice :=
  {| dev_generic := dev_generic d; CHILDREN := ch;
     _SENSORNODE := _SENSORNODE d; _BINARYNODE := _BINARYNODE d;
     _ATTRIBUTENODE := _ATTRIBUTENODE d; _WRITENODE := _WRITENODE d |}.

Definition HMDevice_init (device_description : description) (proxy : option Proxy) : HMDevice :=
  {| dev_generic := HMGeneric_init device_description proxy;
     CHILDREN := ∅;
     _SENSORNODE := ∅;
     _BINARYNODE := ∅;
     _ATTRIBUTENODE := {[ "RSSI_DEVICE" := NcNone ]};
     _WRITENODE := ∅ |}.

Abbreviation DState := (HMDevice * list effect)%type (only parsing).

(** A method of [HMGeneric] called on the device itself. *)
Definition on_self {A : Type} (m : M GState A) : M DState A :=
  zoom (fun '(d, w) => (dev_generic d, w)) (fun '(g, w) '(d, _) => (dev_with g d, w)) m.

(** [self.CHILDREN[i].<method>(...)]: a missing key is a [KeyError]. *)
Definition on_child {A : Type} (i : Z) (m : M GState A) : M DState A :=
  fun '(d, w) =>
    match CHILDREN d !! i with
    | None => (Raise KeyError, (d, w))
    | Some c =>
        let '(r, (g, w')) := m (ch_generic c, w) in
        (r, (dev_with_children (<[i := ch_with g c]> (CHILDREN d)) d, w'))
    end.

Definition HMDevice_UNREACH (self : HMDevice) : bool :=
  if truthy (_unreach (dev_generic self)) then true
  else existsb (fun '(channel, device) => HMChannel_UNREACH device)
               (map_to_list (CHILDREN self)).

Definition ELEMENT (self : HMDevice) : Z := 1.

(** *** Names at module level

    What the module binds at top level.  A name used in a method and bound
    neither there nor here nor among Python's builtins raises [NameError]. *)
Inductive gobj : Type :=
| GInt (z : Z)
| GStr (s : string)
| GOpaque.

Definition module_globals : list (string * gobj) :=
  [ ("logging", GOpaque); ("LOG", GOpaque);
    ("PARAM_OPERATION_READ", GInt 1); ("PARAM_OPERATION_WRITE", GInt 2);
    ("PARAM_OPERATION_EVENT", GInt 4);
    ("PARAM_UNREACH", GStr "UNREACH"); ("PARAMSET_VALUES", GStr "VALUES");
    ("HMGeneric", GOpaque); ("HMChannel", GOpaque); ("HMDevice", GOpaque) ].

Definition load_name {S : Type} (x : string) : M S gobj :=
  match assoc_get x module_globals with
  | Some o => ret o
  | None => raise (NameError x)
  end.

(** [name in o]: substring test on a string; integers, modules, loggers and
    classes are not iterable. *)
Definition py_in (name : string) (o : gobj) : res bool :=
  match o with
  | GStr s => Ret (match String.index 0 name s with Some _ => true | None => false end)
  | _ => Raise TypeError
  end.

(** [table[name]] *)
Definition subscript {S : Type} (table : gmap string nodechannel) (name : string) : M S nodechannel :=
  match table !! name with
  | Some nc => ret nc
  | None => raise KeyError
  end.

Definition _getNodeData (name : string) (data : gmap string nodechannel) (channel : Z) : M DState pyval :=
  let* nodes := load_name "nodes" in
  let* present := of_res (py_in name nodes) in
  let via (nodeChannel : Z) : M DState pyval :=
    let* element := gets (fun '(self, _) => ELEMENT self) in
    if (nodeChannel <=? element)%Z
    then on_child nodeChannel (getValue name)
    else ret VNone in
  if present then
    let* nodeChannel := subscript data name in
    match nodeChannel with
    | NcNone => on_self (getValue name)
    | NcDynamic => via channel
    | NcFixed n => via n
    end
  else ret VNone.

Definition getAttributeData (name : string) (channel : Z) : M DState pyval :=
  let* data := gets (fun '(self, _) => _ATTRIBUTENODE self) in
  _getNodeData name data channel.

Definition getBinaryData (name : string) (channel : Z) : M DState pyval :=
  let* data := gets (fun '(self, _) => _BINARYNODE self) in
  _getNodeData name data channel.

Definition getSensorData (name : string) (channel : Z) : M DState pyval :=
  let* data := gets (fun '(self, _) => _SENSORNODE self) in
  _getNodeData name data channel.

Definition getWriteData (name : string) (channel : Z) : M DState pyval :=
  let* data := gets (fun '(self, _) => _WRITENODE self) in
  _getNodeData name data channel.

(** [<entity>.setValue(data)]: [setValue(self, key, value)] called without
    [value]; the call raises before the method body runs. *)
Definition setValue_one_argument {S : Type} (data : pyval) : M S bool := raise TypeError.

Definition writeNodeData (name : string) (data : pyval) (channel : Z) : M DState bool :=
  let* nodes := load_name "nodes" in
  let* present := of_res (py_in name nodes) in
  let via (nodeChannel : Z) : M DState bool :=
    let* element := gets (fun '(self, _) => ELEMENT self) in
    if (nodeChannel <=? element)%Z
    then on_child nodeChannel (setValue_one_argument data)
    else ret false in
  if present then
    let* table := gets (fun '(self, _) => _WRITENODE self) in
    let* nodeChannel := subscript table name in
    match nodeChannel with
    | NcNone => on_self (setValue_one_argument data)
    | NcDynamic => via channel
    | NcFixed n => via n
    end
  else raise (UnboundLocalError "nodeChannel").

Definition HMDevice_setEventCallback (callback : pyobj) (bequeath : bool) (channel : Z)
    (self : HMDevice) : HMDevice :=
  match callback with
  | Callable cb =>
      let self1 :=
        if (channel =? 0)%Z then
          dev_with (append_callback cb (dev_generic self)) self
        else if negb bequeath && (channel >? 0)%Z
                && bool_decide (is_Some (CHILDREN self !! channel)) then
          dev_with_children
            (alter (fun c => ch_with (append_callback cb (ch_generic c)) c) channel
                   (CHILDREN self)) self
        else self in
      if bequeath then
        dev_with_children
          ((fun device => ch_with (append_callback cb (ch_generic device)) device)
             <$> CHILDREN self1) self1
      else self1
  | NotCallable _ => self
  end.

(** ** The rest of the three classes *)

(** [_PARAMSET_DESCRIPTIONS] is an attribute of every entity that only
    [getParamsetDescription] reads or writes; it is carried beside the
    attributes of [HMGeneric]. *)
Record HMDescribed : Type := {
  described : HMGeneric;
  _PARAMSET_DESCRIPTIONS : gmap string pyval
}.

Definition with_described (g : HMGeneric) (d : HMDescribed) : HMDescribed :=
  {| described := g; _PARAMSET_DESCRIPTIONS := _PARAMSET_DESCRIPTIONS d |}.

Definition set_description (paramset : string) (v : pyval) (d : HMDescribed) : HMDescribed :=
  {| described := described d;
     _PARAMSET_DESCRIPTIONS := <[paramset := v]> (_PARAMSET_DESCRIPTIONS d) |}.

(** The right-hand side of the assignment is evaluated first; the method
    falls off its end on success and so returns [None]. *)
Definition getParamsetDescription (paramset : string) : M (HMDescribed * list effect) pyval :=
  try_except
    (let* description :=
       zoom (fun '(d, w) => (described d, w)) (fun '(g, w) '(d, _) => (with_described g d, w))
         (call_proxy (fun a => PGetParamsetDescription a paramset)) in
     let* _ := modify (fun '(d, w) => (set_description paramset description d, w)) in
     ret VNone)
    (fun err => ret (VBool false)).

(** What [HMChannel.__init__] reads from the description of a channel. *)
Record channel_description : Type := {
  cd_common : description;
  cd_PARENT : pyval;
  cd_INDEX : pyval
}.

(** [HMChannel.__init__]: the attributes are set, then the paramsets are
    pulled if [resolveparamsets] asks for it. *)
Definition HMChannel_init (device_description : channel_description) (proxy : option Proxy)
    (resolveparamsets : bool) : list effect -> res HMChannel * list effect :=
  fun w =>
    let self := {| ch_generic := HMGeneric_init (cd_common device_description) proxy;
                   _PARENT := cd_PARENT device_description;
                   _INDEX := cd_INDEX device_description |} in
    if resolveparamsets then
      match updateParamsets (ch_generic self, w) with
      | (Ret _, (g, w')) => (Ret (ch_with g self), w')
      | (Raise e, (g, w')) => (Raise e, w')
      end
    else (Ret self, w).

(** The property [HMDevice.RSSI_DEVICE]. *)
Definition RSSI_DEVICE : M DState pyval := on_self (getValue "RSSI_DEVICE").

(** ** Sample collaborators and entities *)

(** A proxy whose every request fails. *)
Definition proxy_down : Proxy := fun _ _ => Raise (Fault "timed out").

(** A proxy that answers every request with the same value. *)
Definition proxy_const (v : pyval) : Proxy := fun _ _ => Ret v.

(** A coordinator with one reachable switch. *)
Definition proxy_demo : Proxy :=
  fun _ c =>
    match c with
    | PGetValue _ "RSSI_DEVICE" => Ret (VInt (-70))
    | PGetValue _ _ => Ret (VBool true)
    | PSetValue _ _ _ => Ret VNone
    | PGetParamset _ "VALUES" => Ret (VDict [("UNREACH", VBool false); ("STATE", VBool true)])
    | PGetParamset _ _ => Ret (VDict [("AES_ACTIVE", VBool false)])
    | PPutParamset _ _ _ => Ret VNone
    | PGetParamsetDescription _ _ => Ret (VDict [])
    end.

Definition demo_description (address : string) : description :=
  {| d_ADDRESS := address; d_PARAMSETS := Some ["MASTER"; "VALUES"] |}.

Definition demo_generic (proxy : Proxy) : HMGeneric :=
  HMGeneric_init (demo_description "D001:1") (Some proxy).

Definition demo_channel (i : Z) (address : string) (proxy : Proxy) : HMChannel :=
  {| ch_generic := HMGeneric_init (demo_description address) (Some proxy);
     _PARENT := VStr "D001"; _INDEX := VInt i |}.

(** A device as the server leaves it: constructed, then its channels stored
    in [CHILDREN] under their numbers. *)
Definition demo_device : HMDevice :=
  dev_with_children
    (<[1 := demo_channel 1 "D001:1" proxy_demo]>
       (<[2 := demo_channel 2 "D001:2" proxy_demo]> ∅))
    (HMDevice_init (demo_description "D001") (Some proxy_demo)).

(** Two listeners: one returns, one raises. *)
Definition cb_quiet (n : nat) : callback :=
  {| cb_id := n; cb_body := fun _ _ _ _ _ => Ret tt |}.

Definition cb_failing (n : nat) : callback :=
  {| cb_id := n; cb_body := fun _ _ _ _ _ => Raise (Fault "listener failed") |}.

(** A listener that returns when nothing has happened yet and raises on any
    later call. *)
Definition cb_first_only (n : nat) : callback :=
  {| cb_id := n;
     cb_body := fun w _ _ _ _ =>
                  match w with
                  | [] => Ret tt
                  | _ :: _ => Raise (Fault "called late")
                  end |}.

(** A proxy that takes every push and fails on everything else. *)
Definition proxy_push_only : Proxy :=
  fun _ c =>
    match c with
    | PPutParamset _ _ _ => Ret VNone
    | _ => Raise (Fault "timed out")
    end.

(** A proxy that fails on every read of a single value and on nothing else. *)
Definition proxy_read_fault : Proxy :=
  fun w c =>
    match c with
    | PGetValue _ _ => Raise (Fault "read failed")
    | _ => proxy_demo w c
    end.

(** A channel with three listeners: the first returns in a fresh run, the
    second fails. *)
Definition demo_three_listeners : HMGeneric :=
  append_callback (cb_quiet 2)
    (append_callback (cb_failing 1)
       (append_callback (cb_first_only 4) (demo_generic proxy_demo))).

(** A channel with two listeners, the first of which fails. *)
Definition demo_listeners : HMGeneric :=
  append_callback (cb_quiet 2) (append_callback (cb_failing 1) (demo_generic proxy_demo)).

(** A switch with a temperature sensor: the tables a device type fills in. *)
Definition demo_switch : HMDevice :=
  {| dev_generic := dev_generic demo_device;
     CHILDREN := CHILDREN demo_device;
     _SENSORNODE := {[ "TEMPERATURE" := NcDynamic ]};
     _BINARYNODE := {[ "STATE" := NcFixed 1 ]};
     _ATTRIBUTENODE := {[ "RSSI_DEVICE" := NcNone ]};
     _WRITENODE := {[ "STATE" := NcDynamic ]} |}.

(** ** Notions used in the statements *)

(** The request [updateParamset] sends, if it sends one. *)
Definition refresh_request (self : HMGeneric) (paramset : string) : list effect :=
  if negb (paramset =? "")%string then
    match _proxy self with
    | Some _ => [EProxy (PGetParamset (_ADDRESS self) paramset)]
    | None => []
    end
  else [].

(** What no refresh changes: identity, proxy, declared paramsets, listeners. *)
Definition same_identity (a b : HMGeneric) : Prop :=
  _ADDRESS a = _ADDRESS b /\ _proxy a = _proxy b /\ _PARAMSETS a = _PARAMSETS b
  /\ _eventcallbacks a = _eventcallbacks b.

(** The loop of [updateParamsets]: every name is tried, in order, whatever the
    earlier ones returned. *)
Definition refresh_all (names : list string) (s : GState) : GState :=
  fold_left (fun s ps => snd (updateParamset ps s)) names s.

(** The record an invocation of [cb] leaves in the trace. *)
Definition fired (self : HMGeneric) (interface_id key : string) (value : pyval)
    (cb : callback) : effect :=
  ECallback (cb_id cb) (_ADDRESS self) interface_id key value.

(** The listeners of [cbs], called one after the other from the trace [w]
    for this event, all return normally. *)
Fixpoint all_return (address interface_id key : string) (value : pyval) (w : list effect)
    (cbs : list callback) : Prop :=
  match cbs with
  | [] => True
  | cb :: rest =>
      cb_body cb w address interface_id key value = Ret tt
      /\ all_return address interface_id key value
           (w ++ [ECallback (cb_id cb) address interface_id key value]) rest
  end.

(** The entity once [event] has looked at the key. *)
Definition noted (self : HMGeneric) (key : string) (value : pyval) : HMGeneric :=
  if (key =? PARAM_UNREACH)%string then set_unreach value self else self.

(** How many entries the device and its channels hold in their callback
    lists, all lists together. *)
Definition registrations (d : HMDevice) : nat :=
  (length (_eventcallbacks (dev_generic d))
   + sum_list_with (fun '(_, c) => length (_eventcallbacks (ch_generic c)))
       (map_to_list (CHILDREN d)))%nat.

Definition bequeathed (cb : callback) (c : HMChannel) : HMChannel :=
  ch_with (append_callback cb (ch_generic c)) c.

(** The channel number a table entry stands for, given the caller's. *)
Definition resolved (nc : nodechannel) (channel : Z) : option Z :=
  match nc with
  | NcNone => None
  | NcDynamic => Some channel
  | NcFixed n => Some n
  end.

(** The proxy gives [v] for the request [c] whenever it is asked. *)
Definition answers (p : Proxy) (c : pcall) (v : pyval) : Prop :=
  forall w, p w c = Ret v.

(** The entity once [updateParamset] has stored a fetched paramset and looked
    for the flag in the cached ["VALUES"]. *)
Definition refreshed (paramset : string) (returnset : pyval) (g : HMGeneric) : HMGeneric :=
  let g1 := set_paramset paramset returnset g in
  let values := default VNone (_paramsets g1 !! PARAMSET_VALUES) in
  if truthy values then
    match py_get values PARAM_UNREACH with
    | Ret u => set_unreach u g1
    | Raise _ => g1
    end
  else g1.

(** * Properties *)

(** ** getValue and setValue *)

Lemma getValue_total key s : exists v s', getValue key s = (Ret v, s').
Proof.
  destruct s as [self w]. unfold getValue, try_except, bind, call_proxy, ret.
  destruct (_proxy self) as [p|]; [|eauto].
  destruct (p w _); eauto.
Qed.

Lemma setValue_total key value s : exists b s', setValue key value s = (Ret b, s').
Proof.
  destruct s as [self w]. unfold setValue, try_except, bind, call_proxy, ret.
  destruct (_proxy self) as [p|]; [|eauto].
  destruct (p w _); eauto.
Qed.

(** C10: whenever the proxy raises on the request, [getValue] catches the
    fault and returns the boolean [False], and so does [setValue] for its own
    request, each whatever the proxy does on other requests; the result of a
    failed [getValue] is the very result of a read that succeeds with the
    value [False]. *)
Theorem getValue_setValue_fault_returns_False
    (self : HMGeneric) (w : World) (p : Proxy) (key : string) (value : pyval) :
  _proxy self = Some p ->
  (forall e,
      p w (PGetValue (_ADDRESS self) key) = Raise e ->
      getValue key (self, w)
      = (Ret (VBool false), (self, w ++ [EProxy (PGetValue (_ADDRESS self) key)])))
  /\ (forall e,
        p w (PSetValue (_ADDRESS self) key value) = Raise e ->
        setValue key value (self, w)
        = (Ret false, (self, w ++ [EProxy (PSetValue (_ADDRESS self) key value)])))
  /\ (forall e self' p',
        p w (PGetValue (_ADDRESS self) key) = Raise e ->
        _proxy self' = Some p' ->
        p' w (PGetValue (_ADDRESS self') key) = Ret (VBool false) ->
        fst (getValue key (self, w)) = fst (getValue key (self', w))).
Proof.
  intros Hp. unfold getValue, setValue, try_except, bind, call_proxy, ret. rewrite Hp.
  split; [|split].
  - intros e Hget. now rewrite Hget.
  - intros e Hset. now rewrite Hset.
  - intros e self' p' Hget Hp' Hget'. now rewrite Hget, Hp', Hget'.
Qed.

Lemma getValue_setValue_fault_returns_False_witness :
  getValue "STATE" (demo_generic proxy_read_fault, [])
  = (Ret (VBool false),
     (demo_generic proxy_read_fault,
      [] ++ [EProxy (PGetValue (_ADDRESS (demo_generic proxy_read_fault)) "STATE")]))
  /\ setValue "STATE" (VBool true) (demo_generic proxy_down, [])
     = (Ret false,
        (demo_generic proxy_down,
         [] ++ [EProxy (PSetValue (_ADDRESS (demo_generic proxy_down)) "STATE" (VBool true))]))
  /\ fst (getValue "STATE" (demo_generic proxy_read_fault, []))
     = fst (getValue "STATE" (demo_generic (proxy_const (VBool false)), [])).
Proof.
  split; [|split].
  - apply (proj1 (getValue_setValue_fault_returns_False (demo_generic proxy_read_fault) []
                    proxy_read_fault "STATE" (VBool true) eq_refl)
             (Fault "read failed")).
    reflexivity.
  - apply (proj1 (proj2 (getValue_setValue_fault_returns_False (demo_generic proxy_down) []
                           proxy_down "STATE" (VBool true) eq_refl))
             (Fault "timed out")).
    reflexivity.
  - apply (proj2 (proj2 (getValue_setValue_fault_returns_False
                           (demo_generic proxy_read_fault) [] proxy_read_fault "STATE"
                           (VBool true) eq_refl))
             (Fault "read failed") (demo_generic (proxy_const (VBool false)))
             (proxy_const (VBool false)));
      reflexivity.
Defined.

(** ** Paramset refresh *)

Lemma same_identity_refl a : same_identity a a.
Proof. repeat split. Qed.

Lemma same_identity_trans a b c : same_identity a b -> same_identity b c -> same_identity a c.
Proof. unfold same_identity. intuition congruence. Qed.

Lemma refresh_request_same a b ps : same_identity a b -> refresh_request a ps = refresh_request b ps.
Proof. intros (Ha & Hp & _). unfold refresh_request. now rewrite Ha, Hp. Qed.

(** [updateParamset] never raises, keeps the identity of the entity and sends
    at most the one request. *)
Lemma updateParamset_spec paramset self w :
  exists b self',
    updateParamset paramset (self, w) = (Ret b, (self', w ++ refresh_request self paramset))
    /\ same_identity self self'.
Proof.
  unfold updateParamset, refresh_request, try_except, bind, gets, modify, call_proxy,
    of_res, ret.
  destruct (negb (paramset =? "")%string); cbn;
    [|rewrite app_nil_r; eauto using same_identity_refl].
  destruct (_proxy self) as [p|] eqn:Hp; cbn;
    [|rewrite app_nil_r; eauto using same_identity_refl].
  rewrite Hp.
  destruct (p w _) as [returnset|e]; cbn; [|eauto using same_identity_refl].
  destruct (truthy returnset); cbn; [|eauto using same_identity_refl].
  case_bool_decide; cbn; [|do 2 eexists; split; [reflexivity|repeat split; auto]].
  destruct (truthy _); cbn; [|do 2 eexists; split; [reflexivity|repeat split; auto]].
  destruct (py_get _ _); cbn; do 2 eexists; (split; [reflexivity|repeat split; auto]).
Qed.

Lemma for_each_updateParamset names s :
  for_each names (fun ps => let* _ := updateParamset ps in ret tt) s
  = (Ret tt, refresh_all names s).
Proof.
  revert s. induction names as [|ps names IH]; intros [self w]; [reflexivity|].
  cbn [for_each]. unfold bind at 1. unfold bind at 1.
  destruct (updateParamset_spec ps self w) as (b & self' & Hrun & _).
  unfold refresh_all. cbn [fold_left]. rewrite Hrun. cbn. apply IH.
Qed.

Lemma refresh_all_spec names self w :
  exists self',
    refresh_all names (self, w) = (self', w ++ concat (map (refresh_request self) names))
    /\ same_identity self self'.
Proof.
  revert self w. induction names as [|ps names IH]; intros self w.
  - cbn. rewrite app_nil_r. eauto using same_identity_refl.
  - unfold refresh_all. cbn [fold_left map concat].
    destruct (updateParamset_spec ps self w) as (b & self1 & Hrun & Hid).
    rewrite Hrun. cbn [snd].
    destruct (IH self1 (w ++ refresh_request self ps)) as (self' & Hrest & Hid').
    unfold refresh_all in Hrest.
    exists self'. split; [|eauto using same_identity_trans].
    rewrite Hrest, <- app_assoc. do 4 f_equal.
    apply map_ext. intros. symmetry. now apply refresh_request_same.
Qed.

Lemma updateParamsets_runs (self : HMGeneric) (w : World) :
  updateParamsets (self, w)
  = match _PARAMSETS self with
    | Some names => (Ret true, refresh_all names (self, w))
    | None => (Ret false, (self, w))
    end.
Proof.
  unfold updateParamsets, try_except, iter_PARAMSETS.
  unfold bind at 1.
  destruct (_PARAMSETS self) as [names|]; [|reflexivity].
  unfold bind. rewrite for_each_updateParamset. reflexivity.
Qed.

(** C4 (as the code has it): [updateParamsets] tries every name of
    [PARAMSETS] in order, each with its own request to the proxy, and returns
    [True] whatever the single refreshes returned; it returns [False] only
    when [PARAMSETS] is missing, and then tries nothing. *)
Theorem updateParamsets_ignores_failures (self : HMGeneric) (w : World) :
  match _PARAMSETS self with
  | Some names =>
      fst (updateParamsets (self, w)) = Ret true
      /\ snd (updateParamsets (self, w)) = refresh_all names (self, w)
      /\ snd (snd (updateParamsets (self, w)))
         = w ++ concat (map (refresh_request self) names)
  | None => updateParamsets (self, w) = (Ret false, (self, w))
  end.
Proof.
  rewrite updateParamsets_runs.
  destruct (_PARAMSETS self) as [names|]; [|reflexivity].
  destruct (refresh_all_spec names self w) as (self' & Hall & _).
  cbn [fst snd]. rewrite Hall. auto.
Qed.

(** C4, refuted as stated: with the proxy down the one refresh fails and
    [updateParamsets] still reports success. *)
Lemma updateParamsets_reports_success_on_failure :
  fst (updateParamset "VALUES"
         (HMGeneric_init {| d_ADDRESS := "D001:1"; d_PARAMSETS := Some ["VALUES"] |}
            (Some proxy_down), []))
  = Ret false
  /\ updateParamsets
       (HMGeneric_init {| d_ADDRESS := "D001:1"; d_PARAMSETS := Some ["VALUES"] |}
          (Some proxy_down), [])
     = (Ret true,
        (HMGeneric_init {| d_ADDRESS := "D001:1"; d_PARAMSETS := Some ["VALUES"] |}
           (Some proxy_down),
         [EProxy (PGetParamset "D001:1" "VALUES")])).
Proof. split; reflexivity. Qed.

(** ** Pushing a paramset *)

Lemma existsb_eqb_In (paramset : string) (names : list string) :
  existsb (fun ps => (ps =? paramset)%string) names = true <-> In paramset names.
Proof.
  rewrite existsb_exists. split.
  - intros (ps & Hin & Heq). apply String.eqb_eq in Heq. now subst.
  - intros Hin. exists paramset. split; [assumption|apply String.eqb_refl].
Qed.

(** C9: with an empty [data], or a paramset name that [PARAMSETS] does not
    hold, [putParamset] returns [False], sends nothing to the proxy and
    leaves the entity as it was. *)
Theorem putParamset_rejects_without_proxy_call
    (self : HMGeneric) (w : World) (paramset : string) (data : list (string * pyval)) :
  data = [] \/ (forall names, _PARAMSETS self = Some names -> ~ In paramset names) ->
  putParamset paramset data (self, w) = (Ret false, (self, w)).
Proof.
  intros Hbad.
  unfold putParamset, in_PARAMSETS, iter_PARAMSETS, try_except, bind, ret.
  destruct (_PARAMSETS self) as [names|] eqn:Hnames; [|reflexivity].
  destruct (existsb _ names) eqn:Hknown; [|reflexivity].
  destruct data as [|item data]; [reflexivity|].
  destruct Hbad as [Hempty|Hunknown]; [discriminate|].
  apply existsb_eqb_In in Hknown. now destruct (Hunknown names eq_refl).
Qed.

Lemma putParamset_rejects_without_proxy_call_witness :
  putParamset "VALUES" [] (demo_generic proxy_demo, [])
  = (Ret false, (demo_generic proxy_demo, []))
  /\ putParamset "LINK" [("STATE", VBool true)] (demo_generic proxy_demo, [])
     = (Ret false, (demo_generic proxy_demo, [])).
Proof.
  split.
  - apply (putParamset_rejects_without_proxy_call (demo_generic proxy_demo) [] "VALUES" []).
    left. reflexivity.
  - apply (putParamset_rejects_without_proxy_call (demo_generic proxy_demo) [] "LINK"
             [("STATE", VBool true)]).
    right. intros names Hnames. injection Hnames as <-.
    intros [H|[H|[]]]; discriminate H.
Defined.

(** ** The unreachable flag after a refresh *)

(** C6 (as the code has it): a refresh that returns [True] has stored the
    fetched paramset under its name, and then takes the flag from the
    ["UNREACH"] field of whatever non-empty ["VALUES"] entry the cache now
    holds, whichever name was refreshed; only without such an entry is the flag
    left alone.  Refreshing ["VALUES"] itself therefore always takes the flag
    from the fetched paramset. *)
Theorem updateParamset_flag_follows_cached_VALUES
    (paramset : string) (self self' : HMGeneric) (w w' : World) :
  updateParamset paramset (self, w) = (Ret true, (self', w')) ->
  exists p returnset,
    _proxy self = Some p
    /\ p w (PGetParamset (_ADDRESS self) paramset) = Ret returnset
    /\ truthy returnset = true
    /\ _paramsets self' = <[paramset := returnset]> (_paramsets self)
    /\ (if truthy (default VNone (_paramsets self' !! PARAMSET_VALUES))
        then py_get (default VNone (_paramsets self' !! PARAMSET_VALUES)) PARAM_UNREACH
             = Ret (_unreach self')
        else _unreach self' = _unreach self)
    /\ (paramset = PARAMSET_VALUES -> py_get returnset PARAM_UNREACH = Ret (_unreach self'))
    /\ (paramset <> PARAMSET_VALUES ->
        _paramsets self' !! PARAMSET_VALUES = _paramsets self !! PARAMSET_VALUES).
Proof.
  intros Hrun.
  unfold updateParamset, try_except, bind, gets, modify, call_proxy, of_res, ret in Hrun.
  destruct (negb (paramset =? "")%string); cbn in Hrun; [|discriminate].
  destruct (_proxy self) as [p|] eqn:Hp; cbn in Hrun; [|discriminate].
  rewrite Hp in Hrun.
  destruct (p w _) as [returnset|e] eqn:Hreply; cbn in Hrun; [|discriminate].
  destruct (truthy returnset) eqn:Htruthy; cbn in Hrun; [|discriminate].
  exists p, returnset.
  assert (Hrest : forall self0,
             _paramsets self0 = <[paramset := returnset]> (_paramsets self) ->
             (if truthy (default VNone (_paramsets self0 !! PARAMSET_VALUES))
              then py_get (default VNone (_paramsets self0 !! PARAMSET_VALUES)) PARAM_UNREACH
                   = Ret (_unreach self0)
              else _unreach self0 = _unreach self) ->
             (paramset = PARAMSET_VALUES ->
              py_get returnset PARAM_UNREACH = Ret (_unreach self0))
             /\ (paramset <> PARAMSET_VALUES ->
                 _paramsets self0 !! PARAMSET_VALUES = _paramsets self !! PARAMSET_VALUES)).
  { intros self0 Hcache Hflag. split.
    - intros ->. rewrite Hcache, lookup_insert_eq in Hflag. cbn in Hflag.
      now rewrite Htruthy in Hflag.
    - intros Hother. rewrite Hcache. now apply lookup_insert_ne. }
  case_bool_decide as Hnonempty; cbn in Hrun.
  - destruct (truthy (default VNone (<[paramset:=returnset]> (_paramsets self) !! PARAMSET_VALUES)))
      eqn:Hvalues; cbn in Hrun.
    + destruct (py_get _ PARAM_UNREACH) as [u|e] eqn:Hget; cbn in Hrun; [|discriminate].
      injection Hrun as <- <-.
      assert (Hflag : if truthy (default VNone
                                   (<[paramset:=returnset]> (_paramsets self) !! PARAMSET_VALUES))
                      then py_get (default VNone
                                     (<[paramset:=returnset]> (_paramsets self)
                                        !! PARAMSET_VALUES)) PARAM_UNREACH = Ret u
                      else u = _unreach self) by now rewrite Hvalues.
      repeat split; auto; now apply (Hrest (set_unreach u (set_paramset paramset returnset self))).
    + injection Hrun as <- <-.
      assert (Hflag : if truthy (default VNone
                                   (<[paramset:=returnset]> (_paramsets self) !! PARAMSET_VALUES))
                      then py_get (default VNone
                                     (<[paramset:=returnset]> (_paramsets self)
                                        !! PARAMSET_VALUES)) PARAM_UNREACH
                           = Ret (_unreach self)
                      else _unreach self = _unreach self) by now rewrite Hvalues.
      repeat split; auto; now apply (Hrest (set_paramset paramset returnset self)).
  - exfalso. apply (f_equal (fun m => m !! paramset)) in Hnonempty.
    rewrite lookup_insert_eq, lookup_empty in Hnonempty. discriminate.
Qed.

Lemma updateParamset_flag_follows_cached_VALUES_witness :
  exists p returnset,
    _proxy (demo_generic proxy_demo) = Some p
    /\ p [] (PGetParamset (_ADDRESS (demo_generic proxy_demo)) "VALUES") = Ret returnset
    /\ truthy returnset = true
    /\ _paramsets (fst (snd (updateParamset "VALUES" (demo_generic proxy_demo, []))))
       = <["VALUES" := returnset]> (_paramsets (demo_generic proxy_demo))
    /\ (if truthy (default VNone
                     (_paramsets (fst (snd (updateParamset "VALUES"
                                              (demo_generic proxy_demo, []))))
                        !! PARAMSET_VALUES))
        then py_get (default VNone
                       (_paramsets (fst (snd (updateParamset "VALUES"
                                                (demo_generic proxy_demo, []))))
                          !! PARAMSET_VALUES)) PARAM_UNREACH
             = Ret (_unreach (fst (snd (updateParamset "VALUES"
                                          (demo_generic proxy_demo, [])))))
        else _unreach (fst (snd (updateParamset "VALUES" (demo_generic proxy_demo, []))))
             = _unreach (demo_generic proxy_demo))
    /\ ("VALUES" = PARAMSET_VALUES ->
        py_get returnset PARAM_UNREACH
        = Ret (_unreach (fst (snd (updateParamset "VALUES" (demo_generic proxy_demo, []))))))
    /\ ("VALUES" <> PARAMSET_VALUES ->
        _paramsets (fst (snd (updateParamset "VALUES" (demo_generic proxy_demo, []))))
          !! PARAMSET_VALUES
        = _paramsets (demo_generic proxy_demo) !! PARAMSET_VALUES).
Proof.
  apply (updateParamset_flag_follows_cached_VALUES "VALUES" (demo_generic proxy_demo) _ []
           (snd (snd (updateParamset "VALUES" (demo_generic proxy_demo, []))))).
  vm_compute. reflexivity.
Defined.

(** C6, refuted as stated: the channel has its ["VALUES"] cached, an event
    then marks it unreachable, and a successful refresh of ["MASTER"] puts the
    flag back to the stale cached field. *)
Lemma updateParamset_MASTER_changes_unreach :
  _unreach (fst (snd (event "BidCos-RF" "UNREACH" (VBool true)
                        (snd (updateParamset "VALUES" (demo_generic proxy_demo, []))))))
  = VBool true
  /\ fst (updateParamset "MASTER"
            (snd (event "BidCos-RF" "UNREACH" (VBool true)
                    (snd (updateParamset "VALUES" (demo_generic proxy_demo, []))))))
     = Ret true
  /\ _unreach (fst (snd (updateParamset "MASTER"
                           (snd (event "BidCos-RF" "UNREACH" (VBool true)
                                   (snd (updateParamset "VALUES"
                                           (demo_generic proxy_demo, []))))))))
     = VBool false.
Proof. vm_compute. repeat split. Qed.

(** ** Event delivery *)

Section Delivery.

Variables (self : HMGeneric) (interface_id key : string) (value : pyval).

Local Abbreviation sent := (fired self interface_id key value).
Local Abbreviation self' := (noted self key value).

Lemma noted_same : _ADDRESS self' = _ADDRESS self /\ _eventcallbacks self' = _eventcallbacks self.
Proof.
  unfold noted. destruct (key =? PARAM_UNREACH)%string; split; reflexivity.
Qed.

Lemma invoke_step (g : HMGeneric) (cb : callback) (rest : list callback) (w : World) :
  _ADDRESS g = _ADDRESS self ->
  for_each (cb :: rest) (fun cb => invoke cb interface_id key value) (g, w)
  = match cb_body cb w (_ADDRESS self) interface_id key value with
    | Ret _ => for_each rest (fun cb => invoke cb interface_id key value)
                 (g, w ++ [sent cb])
    | Raise e => (Raise e, (g, w ++ [sent cb]))
    end.
Proof.
  intros Haddr. cbn [for_each]. unfold bind at 1, invoke at 1, fired.
  rewrite Haddr. reflexivity.
Qed.

Lemma invoke_all (g : HMGeneric) (cbs : list callback) (w : World) :
  _ADDRESS g = _ADDRESS self ->
  all_return (_ADDRESS self) interface_id key value w cbs ->
  for_each cbs (fun cb => invoke cb interface_id key value) (g, w)
  = (Ret tt, (g, w ++ map sent cbs)).
Proof.
  intros Haddr. revert w.
  induction cbs as [|cb cbs IH]; intros w Hok.
  - cbn. unfold ret. now rewrite app_nil_r.
  - destruct Hok as [Hcb Hrest].
    rewrite invoke_step, Hcb by assumption.
    rewrite (IH (w ++ [sent cb]) Hrest). cbn [map]. now rewrite <- app_assoc.
Qed.

Lemma invoke_until (g : HMGeneric) (pre post : list callback) (cb : callback)
    (w : World) (e : exn) :
  _ADDRESS g = _ADDRESS self ->
  all_return (_ADDRESS self) interface_id key value w pre ->
  cb_body cb (w ++ map sent pre) (_ADDRESS self) interface_id key value = Raise e ->
  for_each (pre ++ cb :: post) (fun cb => invoke cb interface_id key value) (g, w)
  = (Raise e, (g, w ++ map sent pre ++ [sent cb])).
Proof.
  intros Haddr. revert w.
  induction pre as [|c pre IH]; intros w Hok Hraise; cbn [map app] in *.
  - rewrite app_nil_r in Hraise. rewrite invoke_step, Hraise by assumption. reflexivity.
  - destruct Hok as [Hc Hrest].
    rewrite invoke_step, Hc by assumption.
    rewrite (IH (w ++ [sent c])); [now rewrite <- app_assoc|assumption|].
    now rewrite <- app_assoc.
Qed.

(** A run of the loop ends in one of two ways. *)
Lemma invoke_outcome (cbs : list callback) (w : World) :
  all_return (_ADDRESS self) interface_id key value w cbs
  \/ exists pre cb post e,
       cbs = pre ++ cb :: post
       /\ all_return (_ADDRESS self) interface_id key value w pre
       /\ cb_body cb (w ++ map sent pre) (_ADDRESS self) interface_id key value = Raise e.
Proof.
  revert w. induction cbs as [|c cbs IH]; intros w; [left; exact I|].
  destruct (cb_body c w (_ADDRESS self) interface_id key value) as [[]|e] eqn:Hc.
  - destruct (IH (w ++ [sent c])) as [Hall|(pre & cb & post & e & -> & Hpre & Hraise)].
    + left. split; assumption.
    + right. exists (c :: pre), cb, post, e. cbn [app map all_return].
      rewrite <- app_assoc in Hraise. auto.
  - right. exists [], c, cbs, e. cbn [app map all_return]. rewrite app_nil_r. auto.
Qed.

End Delivery.

(** C5 (as the code has it), for listeners that do not call back into the
    entity: [event] calls the listeners in registration order and has no
    handler around the call.  The first listener that raises in the delivery
    ends it: its exception leaves [event], and the listeners registered after
    it are not called.  When no listener raises in the delivery, each one is
    called once, in order.  Every delivery is one of these two. *)
Theorem event_stops_at_first_failing_callback
    (self : HMGeneric) (w : World) (interface_id key : string) (value : pyval) :
  (forall pre cb post e,
      _eventcallbacks self = pre ++ cb :: post ->
      all_return (_ADDRESS self) interface_id key value w pre ->
      cb_body cb (w ++ map (fired self interface_id key value) pre)
        (_ADDRESS self) interface_id key value = Raise e ->
      event interface_id key value (self, w)
      = (Raise e,
         (noted self key value,
          w ++ map (fired self interface_id key value) pre
            ++ [fired self interface_id key value cb])))
  /\ (all_return (_ADDRESS self) interface_id key value w (_eventcallbacks self) ->
      event interface_id key value (self, w)
      = (Ret tt,
         (noted self key value,
          w ++ map (fired self interface_id key value) (_eventcallbacks self))))
  /\ (all_return (_ADDRESS self) interface_id key value w (_eventcallbacks self)
      \/ exists pre cb post e,
           _eventcallbacks self = pre ++ cb :: post
           /\ all_return (_ADDRESS self) interface_id key value w pre
           /\ cb_body cb (w ++ map (fired self interface_id key value) pre)
                (_ADDRESS self) interface_id key value = Raise e).
Proof.
  destruct (noted_same self key value) as [Haddr Hcbs].
  assert (Hhead : event interface_id key value (self, w)
                  = for_each (_eventcallbacks self)
                      (fun cb => invoke cb interface_id key value) (noted self key value, w)).
  { unfold event, noted, bind, gets, modify, ret.
    destruct (key =? PARAM_UNREACH)%string; cbn; reflexivity. }
  split; [|split].
  - intros pre cb post e Hsplit Hok Hraise.
    rewrite Hhead, Hsplit. now apply invoke_until.
  - intros Hok. rewrite Hhead. now apply invoke_all.
  - apply (invoke_outcome self interface_id key value).
Qed.

Lemma event_stops_at_first_failing_callback_witness :
  event "BidCos-RF" "UNREACH" (VBool true) (demo_three_listeners, [])
  = (Raise (Fault "listener failed"),
     (noted demo_three_listeners "UNREACH" (VBool true),
      [] ++ map (fired demo_three_listeners "BidCos-RF" "UNREACH" (VBool true))
              [cb_first_only 4]
         ++ [fired demo_three_listeners "BidCos-RF" "UNREACH" (VBool true) (cb_failing 1)])).
Proof.
  apply (proj1 (event_stops_at_first_failing_callback demo_three_listeners [] "BidCos-RF"
                  "UNREACH" (VBool true))
           [cb_first_only 4] (cb_failing 1) [cb_quiet 2] (Fault "listener failed")).
  - reflexivity.
  - split; [reflexivity|exact I].
  - reflexivity.
Defined.

(** C5, refuted as stated: the first listener raises, the exception reaches
    the caller of [event], and the second listener is never called. *)
Lemma event_failing_callback_suppresses_the_rest :
  event "BidCos-RF" "STATE" (VBool true) (demo_listeners, [])
  = (Raise (Fault "listener failed"),
     (demo_listeners, [ECallback 1 "D001:1" "BidCos-RF" "STATE" (VBool true)])).
Proof. reflexivity. Qed.

(** ** Registering listeners on a device *)

Lemma sum_bequeathed (cb : callback) (l : list (Z * HMChannel)) :
  sum_list_with (fun '(_, c) => length (_eventcallbacks (ch_generic c)))
    (prod_map id (bequeathed cb) <$> l)
  = (sum_list_with (fun '(_, c) => length (_eventcallbacks (ch_generic c))) l + length l)%nat.
Proof.
  induction l as [|[i c] l IH]; [reflexivity|].
  cbn [fmap list_fmap sum_list_with length prod_map fst snd id bequeathed ch_with ch_generic
       append_callback _eventcallbacks] in *.
  rewrite IH, length_app. cbn [length]. lia.
Qed.

(** C3 (as the code has it): registering a callable with [bequeath] set adds
    it once to the list of every child channel; the device's own list gets it
    only when [channel] is 0.  So the call makes N+1 registrations for
    [channel == 0] and N for any other [channel]. *)
Theorem setEventCallback_bequeath_registrations
    (cb : callback) (channel : Z) (self : HMDevice) :
  _eventcallbacks (dev_generic (HMDevice_setEventCallback (Callable cb) true channel self))
  = (if (channel =? 0)%Z
     then _eventcallbacks (dev_generic self) ++ [cb]
     else _eventcallbacks (dev_generic self))
  /\ (forall i : Z,
        CHILDREN (HMDevice_setEventCallback (Callable cb) true channel self) !! i
        = bequeathed cb <$> (CHILDREN self !! i))
  /\ registrations (HMDevice_setEventCallback (Callable cb) true channel self)
     = (registrations self + size (CHILDREN self)
        + (if (channel =? 0)%Z then 1 else 0))%nat.
Proof.
  unfold HMDevice_setEventCallback, registrations. fold (bequeathed cb).
  destruct (channel =? 0)%Z; cbn -[map_to_list].
  - split; [reflexivity|]. split; [intros i; apply lookup_fmap|].
    rewrite map_to_list_fmap, sum_bequeathed, length_map_to_list, length_app. cbn [length]. lia.
  - split; [reflexivity|]. split; [intros i; apply lookup_fmap|].
    rewrite map_to_list_fmap, sum_bequeathed, length_map_to_list. lia.
Qed.

(** C3, refuted as stated: bequeathing with [channel=1] reaches both
    channels, and the device's own list stays empty. *)
Lemma setEventCallback_bequeath_channel_1_skips_device :
  map cb_id (_eventcallbacks
               (dev_generic (HMDevice_setEventCallback (Callable (cb_quiet 7)) true 1
                               demo_device)))
  = []
  /\ ((fun c => map cb_id (_eventcallbacks (ch_generic c)))
        <$> (CHILDREN (HMDevice_setEventCallback (Callable (cb_quiet 7)) true 1 demo_device)
               !! 1%Z))
     = Some [7%nat]
  /\ registrations (HMDevice_setEventCallback (Callable (cb_quiet 7)) true 1 demo_device)
     = 2%nat.
Proof. vm_compute. repeat split. Qed.

(** ** Unreachability of a device *)

Lemma HMChannel_UNREACH_truthy (c : HMChannel) :
  HMChannel_UNREACH c = truthy (_unreach (ch_generic c)).
Proof. unfold HMChannel_UNREACH. now destruct (truthy _). Qed.

Lemma HMDevice_UNREACH_true (self : HMDevice) :
  HMDevice_UNREACH self = true <->
  truthy (_unreach (dev_generic self)) = true
  \/ exists i c, CHILDREN self !! i = Some c /\ HMChannel_UNREACH c = true.
Proof.
  unfold HMDevice_UNREACH.
  destruct (truthy (_unreach (dev_generic self))); [intuition|].
  rewrite existsb_exists. split.
  - intros ([i c] & Hin & Hc). right. exists i, c. split; [|assumption].
    apply elem_of_map_to_list, list_elem_of_In, Hin.
  - intros [Hown|(i & c & Hlookup & Hc)]; [discriminate|].
    exists (i, c). split; [|assumption].
    apply list_elem_of_In, elem_of_map_to_list, Hlookup.
Qed.

(** Delivering an event never replaces the entity by another one: only the
    flag can change, and only for the key ["UNREACH"]. *)
Lemma for_each_invoke_entity (cbs : list callback) (interface_id key : string) (value : pyval)
    (g : HMGeneric) (w : World) :
  fst (snd (for_each cbs (fun cb => invoke cb interface_id key value) (g, w))) = g.
Proof.
  revert w. induction cbs as [|cb cbs IH]; intros w; [reflexivity|].
  cbn [for_each]. unfold bind at 1, invoke at 1.
  destruct (cb_body cb w _ _ _ _); [apply IH|reflexivity].
Qed.

Lemma event_entity (interface_id key : string) (value : pyval) (g : HMGeneric) (w : World) :
  fst (snd (event interface_id key value (g, w))) = noted g key value.
Proof.
  unfold event, noted, bind, gets, modify, ret.
  destruct (key =? PARAM_UNREACH)%string; cbn; apply for_each_invoke_entity.
Qed.

(** C7: the property [UNREACH] of a device is true exactly when the device's
    own flag is true or the [UNREACH] of one of its channels is; it is false
    exactly when the own flag and every channel's flag are false or unknown.
    Nothing is remembered between calls: once an ["UNREACH"] event has reached
    a channel, the device's answer is the one for the channel's new flag. *)
Theorem HMDevice_UNREACH_own_or_any_child (self : HMDevice) :
  (HMDevice_UNREACH self = true <->
   truthy (_unreach (dev_generic self)) = true
   \/ exists i c, CHILDREN self !! i = Some c /\ HMChannel_UNREACH c = true)
  /\ (HMDevice_UNREACH self = false <->
      truthy (_unreach (dev_generic self)) = false
      /\ forall i c, CHILDREN self !! i = Some c -> truthy (_unreach (ch_generic c)) = false)
  /\ (forall (i : Z) (c : HMChannel) (interface_id : string) (value : pyval) (w : World),
         CHILDREN self !! i = Some c ->
         HMDevice_UNREACH
           (fst (snd (on_child i (event interface_id PARAM_UNREACH value) (self, w)))) = true
         <-> truthy (_unreach (dev_generic self)) = true
             \/ truthy value = true
             \/ exists j c', j <> i /\ CHILDREN self !! j = Some c'
                             /\ HMChannel_UNREACH c' = true).
Proof.
  split; [apply HMDevice_UNREACH_true|]. split.
  - rewrite <- not_true_iff_false, HMDevice_UNREACH_true. split.
    + intros Hnone. split.
      * destruct (truthy (_unreach (dev_generic self))); [exfalso; auto|reflexivity].
      * intros i c Hlookup. rewrite <- HMChannel_UNREACH_truthy.
        destruct (HMChannel_UNREACH c) eqn:Hc; [|reflexivity].
        exfalso. apply Hnone. right. exists i, c. auto.
    + intros [Hown Hall] [Hown'|(i & c & Hlookup & Hc)]; [congruence|].
      rewrite HMChannel_UNREACH_truthy, (Hall i c Hlookup) in Hc. discriminate.
  - intros i c interface_id value w Hlookup.
    unfold on_child. rewrite Hlookup.
    pose proof (event_entity interface_id PARAM_UNREACH value (ch_generic c) w) as Hentity.
    destruct (event interface_id PARAM_UNREACH value (ch_generic c, w)) as [r [g w']].
    cbn [fst snd] in *. subst g.
    rewrite HMDevice_UNREACH_true. cbn [dev_generic dev_with_children CHILDREN].
    split.
    + intros [Hown|(j & c' & Hj & Hc')]; [auto|].
      destruct (decide (i = j)) as [<-|Hne].
      * rewrite lookup_insert_eq in Hj. injection Hj as <-.
        rewrite HMChannel_UNREACH_truthy in Hc'. auto.
      * rewrite lookup_insert_ne in Hj by assumption. right. right. exists j, c'. auto.
    + intros [Hown|[Hvalue|(j & c' & Hne & Hj & Hc')]]; [auto| |].
      * right. exists i, (ch_with (noted (ch_generic c) PARAM_UNREACH value) c).
        rewrite lookup_insert_eq, HMChannel_UNREACH_truthy.
        split; [reflexivity|exact Hvalue].
      * right. exists j, c'. rewrite lookup_insert_ne by auto. auto.
Qed.

Lemma HMDevice_UNREACH_own_or_any_child_witness :
  HMDevice_UNREACH
    (fst (snd (on_child 2 (event "BidCos-RF" PARAM_UNREACH (VBool true)) (demo_device, []))))
  = true.
Proof.
  apply (proj2 (proj2 (HMDevice_UNREACH_own_or_any_child demo_device)) 2
           (demo_channel 2 "D001:2" proxy_demo) "BidCos-RF" (VBool true) []).
  - reflexivity.
  - right. left. reflexivity.
Defined.

(** ** Node data *)

(** The module binds no name [nodes]; neither do the two methods that use it. *)
Lemma load_nodes_unbound {S : Type} (s : S) :
  load_name "nodes" s = (Raise (NameError "nodes"), s).
Proof. reflexivity. Qed.

Lemma _getNodeData_NameError (name : string) (data : gmap string nodechannel) (channel : Z)
    (s : DState) :
  _getNodeData name data channel s = (Raise (NameError "nodes"), s).
Proof. unfold _getNodeData. unfold bind at 1. now rewrite load_nodes_unbound. Qed.

Lemma writeNodeData_NameError (name : string) (data : pyval) (channel : Z) (s : DState) :
  writeNodeData name data channel s = (Raise (NameError "nodes"), s).
Proof. unfold writeNodeData. unfold bind at 1. now rewrite load_nodes_unbound. Qed.

(** C1 (what the code does instead): for every name, so also for one the
    selected table holds, and whatever its entry, the four read accessors and
    [writeNodeData] stop at the test [name in nodes] with a [NameError];
    neither the device's nor a channel's [getValue] / [setValue] is reached
    and nothing is sent. *)
Theorem node_data_lookup_raises_NameError
    (self : HMDevice) (w : World) (name : string) (channel : Z) (value : pyval) :
  getAttributeData name channel (self, w) = (Raise (NameError "nodes"), (self, w))
  /\ getBinaryData name channel (self, w) = (Raise (NameError "nodes"), (self, w))
  /\ getSensorData name channel (self, w) = (Raise (NameError "nodes"), (self, w))
  /\ getWriteData name channel (self, w) = (Raise (NameError "nodes"), (self, w))
  /\ writeNodeData name value channel (self, w) = (Raise (NameError "nodes"), (self, w)).
Proof.
  unfold getAttributeData, getBinaryData, getSensorData, getWriteData, bind, gets.
  rewrite !_getNodeData_NameError, writeNodeData_NameError. auto 6.
Qed.

(** What the accessors give on a freshly built device and on [demo_switch],
    next to what the method they name in the table gives when called itself. *)
Example getAttributeData_RSSI_DEVICE :
  getAttributeData "RSSI_DEVICE" 1 (demo_device, [])
  = (Raise (NameError "nodes"), (demo_device, []))
  /\ on_self (getValue "RSSI_DEVICE") (demo_device, [])
     = (Ret (VInt (-70)), (demo_device, [EProxy (PGetValue "D001" "RSSI_DEVICE")])).
Proof. split; reflexivity. Qed.

Example getSensorData_TEMPERATURE_channel_2 :
  getSensorData "TEMPERATURE" 2 (demo_switch, [])
  = (Raise (NameError "nodes"), (demo_switch, []))
  /\ fst (on_child 2 (getValue "TEMPERATURE") (demo_switch, [])) = Ret (VBool true)
  /\ snd (snd (on_child 2 (getValue "TEMPERATURE") (demo_switch, [])))
     = [EProxy (PGetValue "D001:2" "TEMPERATURE")].
Proof. repeat split; reflexivity. Qed.

Example writeNodeData_STATE :
  writeNodeData "STATE" (VBool true) 1 (demo_switch, [])
  = (Raise (NameError "nodes"), (demo_switch, [])).
Proof. reflexivity. Qed.

(** C2 (what the code does instead): for a name the table does not hold, or
    an entry that stands for a channel number outside [1 .. ELEMENT], the
    accessors send nothing to the proxy, and they do not return the failure
    value either ([None] for a read, [False] for a write): the [NameError]
    of [name in nodes] leaves the method. *)
Theorem node_data_rejection_raises_NameError
    (self : HMDevice) (w : World) (name : string) (channel : Z) (value : pyval)
    (table : gmap string nodechannel) :
  table !! name = None
  \/ (exists nc n, table !! name = Some nc /\ resolved nc channel = Some n
                   /\ (n < 1 \/ ELEMENT self < n)%Z) ->
  _getNodeData name table channel (self, w) = (Raise (NameError "nodes"), (self, w))
  /\ _getNodeData name table channel (self, w) <> (Ret VNone, (self, w))
  /\ writeNodeData name value channel (self, w) = (Raise (NameError "nodes"), (self, w))
  /\ writeNodeData name value channel (self, w) <> (Ret false, (self, w)).
Proof.
  intros _. rewrite _getNodeData_NameError, writeNodeData_NameError.
  repeat split; discriminate.
Qed.

Lemma node_data_rejection_raises_NameError_witness :
  (_getNodeData "HUMIDITY" (_SENSORNODE demo_switch) 1 (demo_switch, [])
   = (Raise (NameError "nodes"), (demo_switch, []))
   /\ _getNodeData "HUMIDITY" (_SENSORNODE demo_switch) 1 (demo_switch, [])
      <> (Ret VNone, (demo_switch, []))
   /\ writeNodeData "HUMIDITY" (VInt 40) 1 (demo_switch, [])
      = (Raise (NameError "nodes"), (demo_switch, []))
   /\ writeNodeData "HUMIDITY" (VInt 40) 1 (demo_switch, [])
      <> (Ret false, (demo_switch, [])))
  /\ (_getNodeData "TEMPERATURE" (_SENSORNODE demo_switch) 2 (demo_switch, [])
      = (Raise (NameError "nodes"), (demo_switch, []))
      /\ _getNodeData "TEMPERATURE" (_SENSORNODE demo_switch) 2 (demo_switch, [])
         <> (Ret VNone, (demo_switch, []))
      /\ writeNodeData "TEMPERATURE" (VInt 40) 2 (demo_switch, [])
         = (Raise (NameError "nodes"), (demo_switch, []))
      /\ writeNodeData "TEMPERATURE" (VInt 40) 2 (demo_switch, [])
         <> (Ret false, (demo_switch, []))).
Proof.
  split.
  - apply (node_data_rejection_raises_NameError demo_switch [] "HUMIDITY" 1 (VInt 40)
             (_SENSORNODE demo_switch)).
    left. reflexivity.
  - apply (node_data_rejection_raises_NameError demo_switch [] "TEMPERATURE" 2 (VInt 40)
             (_SENSORNODE demo_switch)).
    right. exists NcDynamic, 2%Z. repeat split. right. reflexivity.
Defined.

(** * Further properties *)

(** ** Reads and writes of single values *)

(** X1: [setValue] and [getValue] never raise and never change the entity.  With
    a proxy they send exactly one request: [getValue] hands back the answer
    as it is, [setValue] returns [True] whatever the answer; a fault gives
    [False].  Without a proxy nothing is sent and the result is [False]. *)
Theorem getValue_setValue_single_request
    (self : HMGeneric) (w : World) (key : string) (value : pyval) :
  getValue key (self, w)
  = match _proxy self with
    | Some p =>
        (Ret (match p w (PGetValue (_ADDRESS self) key) with
              | Ret v => v
              | Raise _ => VBool false
              end),
         (self, w ++ [EProxy (PGetValue (_ADDRESS self) key)]))
    | None => (Ret (VBool false), (self, w))
    end
  /\ setValue key value (self, w)
     = match _proxy self with
       | Some p =>
           (Ret (match p w (PSetValue (_ADDRESS self) key value) with
                 | Ret _ => true
                 | Raise _ => false
                 end),
            (self, w ++ [EProxy (PSetValue (_ADDRESS self) key value)]))
       | None => (Ret false, (self, w))
       end.
Proof.
  unfold getValue, setValue, try_except, bind, call_proxy, ret.
  destruct (_proxy self) as [p|]; [|split; reflexivity].
  split; [destruct (p w (PGetValue _ _))|destruct (p w (PSetValue _ _ _))]; reflexivity.
Qed.

Lemma dev_with_same (d : HMDevice) : dev_with (dev_generic d) d = d.
Proof. now destruct d. Qed.

(** X2: The property [RSSI_DEVICE] asks the proxy for ["RSSI_DEVICE"] at the
    device's own address; it never raises and leaves the device and every
    channel as they were. *)
Theorem RSSI_DEVICE_reads_own_address (self : HMDevice) (w : World) :
  RSSI_DEVICE (self, w)
  = match _proxy (dev_generic self) with
    | Some p =>
        (Ret (match p w (PGetValue (_ADDRESS (dev_generic self)) "RSSI_DEVICE") with
              | Ret v => v
              | Raise _ => VBool false
              end),
         (self, w ++ [EProxy (PGetValue (_ADDRESS (dev_generic self)) "RSSI_DEVICE")]))
    | None => (Ret (VBool false), (self, w))
    end.
Proof.
  unfold RSSI_DEVICE, on_self, zoom, getValue, try_except, bind, call_proxy, ret.
  destruct (_proxy (dev_generic self)) as [p|]; [|now rewrite dev_with_same].
  destruct (p w _); now rewrite dev_with_same.
Qed.

(** ** Paramset descriptions *)

Lemma with_described_same (d : HMDescribed) : with_described (described d) d = d.
Proof. now destruct d. Qed.

(** X3: [getParamsetDescription] never raises and never returns [True]: a fetched
    description is stored under the paramset's name, replacing an older one,
    and the method returns [None]; on a fault, or without a proxy, it returns
    [False] and every stored description stays. *)
Theorem getParamsetDescription_stores_or_keeps
    (d : HMDescribed) (w : World) (paramset : string) :
  getParamsetDescription paramset (d, w)
  = match _proxy (described d) with
    | Some p =>
        match p w (PGetParamsetDescription (_ADDRESS (described d)) paramset) with
        | Ret v =>
            (Ret VNone,
             (set_description paramset v d,
              w ++ [EProxy (PGetParamsetDescription (_ADDRESS (described d)) paramset)]))
        | Raise _ =>
            (Ret (VBool false),
             (d, w ++ [EProxy (PGetParamsetDescription (_ADDRESS (described d)) paramset)]))
        end
    | None => (Ret (VBool false), (d, w))
    end.
Proof.
  unfold getParamsetDescription, try_except, bind, zoom, call_proxy, modify, ret.
  destruct (_proxy (described d)) as [p|]; [|now rewrite with_described_same].
  destruct (p w _); cbn; now rewrite with_described_same.
Qed.

(** ** What event delivery touches *)

Lemma invoke_prefix (cbs : list callback) (interface_id key : string) (value : pyval)
    (g : HMGeneric) (w : World) :
  exists n,
    (n <= length cbs)%nat
    /\ snd (snd (for_each cbs (fun cb => invoke cb interface_id key value) (g, w)))
       = w ++ map (fired g interface_id key value) (firstn n cbs)
    /\ (fst (for_each cbs (fun cb => invoke cb interface_id key value) (g, w)) = Ret tt ->
        n = length cbs).
Proof.
  revert w. induction cbs as [|cb cbs IH]; intros w.
  - exists 0%nat. cbn. rewrite app_nil_r. auto.
  - rewrite (invoke_step g interface_id key value g cb cbs w eq_refl).
    destruct (cb_body cb w _ _ _ _) as [[]|e].
    + destruct (IH (w ++ [fired g interface_id key value cb])) as (n & Hn & Htrace & Hall).
      exists (S n). cbn [length firstn map]. rewrite Htrace, <- app_assoc.
      repeat split; [lia|auto].
    + exists 1%nat. cbn [length firstn map fst snd]. rewrite firstn_O.
      repeat split; [lia|discriminate].
Qed.

(** X4: for listeners that do not call back into the entity or the proxy:
    [event] itself writes nothing of the entity but the flag, and the flag
    only for the key ["UNREACH"], before the first listener is called, so that
    it holds the event's value even if a listener raised.  [event] itself
    sends nothing to the proxy: the trace grows by the calls of a first run of
    the listeners, all of them when [event] returns. *)
Theorem event_touches_only_the_flag
    (self : HMGeneric) (w : World) (interface_id key : string) (value : pyval) :
  fst (snd (event interface_id key value (self, w)))
  = (if (key =? "UNREACH")%string then set_unreach value self else self)
  /\ exists n,
       (n <= length (_eventcallbacks self))%nat
       /\ snd (snd (event interface_id key value (self, w)))
          = w ++ map (fired self interface_id key value) (firstn n (_eventcallbacks self))
       /\ (fst (event interface_id key value (self, w)) = Ret tt ->
           n = length (_eventcallbacks self)).
Proof.
  split; [apply event_entity|].
  assert (Hhead : event interface_id key value (self, w)
                  = for_each (_eventcallbacks self)
                      (fun cb => invoke cb interface_id key value) (noted self key value, w)).
  { unfold event, noted, bind, gets, modify, ret.
    destruct (key =? PARAM_UNREACH)%string; cbn; reflexivity. }
  rewrite Hhead.
  destruct (invoke_prefix (_eventcallbacks self) interface_id key value
              (noted self key value) w) as (n & Hn & Htrace & Hall).
  exists n. repeat split; [assumption| |assumption].
  rewrite Htrace. unfold fired. now rewrite (proj1 (noted_same self key value)).
Qed.

(** ** What a refresh leaves behind *)

(** The entity after [updateParamset], case by case. *)
Lemma updateParamset_entity (paramset : string) (g : HMGeneric) (w : World) :
  fst (snd (updateParamset paramset (g, w)))
  = if negb (paramset =? "")%string then
      match _proxy g with
      | Some p =>
          match p w (PGetParamset (_ADDRESS g) paramset) with
          | Ret returnset => if truthy returnset then refreshed paramset returnset g else g
          | Raise _ => g
          end
      | None => g
      end
    else g.
Proof.
  unfold updateParamset, refreshed, try_except, bind, gets, modify, call_proxy, of_res, ret.
  destruct (negb (paramset =? "")%string); cbn; [|reflexivity].
  destruct (_proxy g) as [p|] eqn:Hp; cbn; [|reflexivity].
  rewrite Hp.
  destruct (p w _) as [returnset|e]; cbn; [|reflexivity].
  destruct (truthy returnset); cbn; [|reflexivity].
  case_bool_decide as Hnonempty; cbn.
  - destruct (truthy _); cbn; [|reflexivity].
    destruct (py_get _ _); reflexivity.
  - exfalso. apply (f_equal (fun m => m !! paramset)) in Hnonempty.
    rewrite lookup_insert_eq, lookup_empty in Hnonempty. discriminate.
Qed.

Lemma refreshed_paramsets (paramset : string) (returnset : pyval) (g : HMGeneric) :
  _paramsets (refreshed paramset returnset g) = <[paramset := returnset]> (_paramsets g).
Proof.
  unfold refreshed. destruct (truthy _); [|reflexivity].
  destruct (py_get _ _); reflexivity.
Qed.

(** X5: A refresh that returns [False] has left the entity as it was, with one
    exception: when the cached ["VALUES"] entry is then a non-empty value
    that is no mapping, the fetched paramset is already stored (and the flag
    untouched) although the method reports failure. *)
Theorem updateParamset_failure_keeps_entity
    (paramset : string) (self self' : HMGeneric) (w w' : World) :
  updateParamset paramset (self, w) = (Ret false, (self', w')) ->
  self' = self
  \/ exists p returnset,
       _proxy self = Some p
       /\ p w (PGetParamset (_ADDRESS self) paramset) = Ret returnset
       /\ truthy returnset = true
       /\ self' = set_paramset paramset returnset self
       /\ truthy (default VNone (_paramsets self' !! PARAMSET_VALUES)) = true
       /\ py_get (default VNone (_paramsets self' !! PARAMSET_VALUES)) PARAM_UNREACH
          = Raise AttributeError.
Proof.
  intros Hrun.
  unfold updateParamset, try_except, bind, gets, modify, call_proxy, of_res, ret in Hrun.
  destruct (negb (paramset =? "")%string); cbn in Hrun; [|injection Hrun; auto].
  destruct (_proxy self) as [p|] eqn:Hp; cbn in Hrun; [|injection Hrun; auto].
  rewrite Hp in Hrun.
  destruct (p w _) as [returnset|e] eqn:Hreply; cbn in Hrun; [|injection Hrun; auto].
  destruct (truthy returnset) eqn:Htruthy; cbn in Hrun; [|injection Hrun; auto].
  case_bool_decide as Hnonempty; cbn in Hrun; [|discriminate].
  destruct (truthy (default VNone (<[paramset:=returnset]> (_paramsets self) !! PARAMSET_VALUES)))
    eqn:Hvalues; cbn in Hrun; [|discriminate].
  destruct (py_get _ PARAM_UNREACH) as [u|e] eqn:Hget; cbn in Hrun; [discriminate|].
  injection Hrun as <- <-. right. exists p, returnset.
  repeat split; auto.
  cbn [set_paramset _paramsets]. rewrite Hget. f_equal.
  destruct (default VNone _); cbn in Hget; congruence.
Qed.

Lemma updateParamset_failure_keeps_entity_witness :
  fst (snd (updateParamset "VALUES" (demo_generic proxy_down, []))) = demo_generic proxy_down
  \/ exists p returnset,
       _proxy (demo_generic proxy_down) = Some p
       /\ p [] (PGetParamset (_ADDRESS (demo_generic proxy_down)) "VALUES") = Ret returnset
       /\ truthy returnset = true
       /\ fst (snd (updateParamset "VALUES" (demo_generic proxy_down, [])))
          = set_paramset "VALUES" returnset (demo_generic proxy_down)
       /\ truthy (default VNone
                    (_paramsets (fst (snd (updateParamset "VALUES"
                                             (demo_generic proxy_down, []))))
                       !! PARAMSET_VALUES)) = true
       /\ py_get (default VNone
                    (_paramsets (fst (snd (updateParamset "VALUES"
                                             (demo_generic proxy_down, []))))
                       !! PARAMSET_VALUES)) PARAM_UNREACH
          = Raise AttributeError.
Proof.
  apply (updateParamset_failure_keeps_entity "VALUES" (demo_generic proxy_down) _ []
           (snd (snd (updateParamset "VALUES" (demo_generic proxy_down, []))))).
  vm_compute. reflexivity.
Defined.

(** A property that one refresh of [ps] brings about and that no refresh
    undoes holds after the whole loop, if [ps] is among the names. *)
Lemma refresh_all_establishes (P : HMGeneric -> Prop) (ps : string) (names : list string)
    (self : HMGeneric) (w : World) :
  In ps names ->
  (forall g w0, same_identity self g -> P (fst (snd (updateParamset ps (g, w0))))) ->
  (forall q g w0, same_identity self g -> P g -> P (fst (snd (updateParamset q (g, w0))))) ->
  P (fst (refresh_all names (self, w))).
Proof.
  intros Hin Hsets Hkeeps.
  assert (Hstays : forall names g w0,
             same_identity self g -> P g -> P (fst (refresh_all names (g, w0)))).
  { clear - Hkeeps. induction names as [|q names IH]; intros g w0 Hid HP; [exact HP|].
    unfold refresh_all. cbn [fold_left].
    destruct (updateParamset_spec q g w0) as (b & g' & Hrun & Hid').
    pose proof (Hkeeps q g w0 Hid HP) as HP'. rewrite Hrun in *. cbn [fst snd] in *.
    apply IH; eauto using same_identity_trans. }
  assert (Hgoal : forall g w0, same_identity self g -> P (fst (refresh_all names (g, w0)))).
  { clear w. induction names as [|q names IH]; [destruct Hin|]. intros g w0 Hid.
    unfold refresh_all. cbn [fold_left].
    destruct (updateParamset_spec q g w0) as (b & g' & Hrun & Hid').
    destruct (String.eqb_spec q ps) as [->|Hne].
    - pose proof (Hsets g w0 Hid) as HP'. rewrite Hrun in *. cbn [fst snd] in *.
      apply Hstays; eauto using same_identity_trans.
    - destruct Hin as [Heq|Hin]; [congruence|].
      rewrite Hrun. cbn [snd]. apply IH; eauto using same_identity_trans. }
  apply Hgoal, same_identity_refl.
Qed.

(** The loop leaves in the cache what the proxy gives for a name, if the
    proxy gives the same non-empty paramset each time it is asked for it. *)
Lemma refresh_all_caches (self : HMGeneric) (w : World) (p : Proxy) (names : list string)
    (ps : string) (returnset : pyval) :
  _proxy self = Some p ->
  In ps names ->
  ps <> "" ->
  answers p (PGetParamset (_ADDRESS self) ps) returnset ->
  truthy returnset = true ->
  _paramsets (fst (refresh_all names (self, w))) !! ps = Some returnset.
Proof.
  intros Hp Hin Hps Hanswer Htruthy.
  assert (Hne : negb (ps =? "")%string = true)
    by (apply negb_true_iff, String.eqb_neq, Hps).
  apply (refresh_all_establishes (fun g => _paramsets g !! ps = Some returnset) ps); [assumption| |].
  - intros g w0 (Haddr & Hproxy & _).
    rewrite updateParamset_entity, Hne, <- Hproxy, Hp, <- Haddr, Hanswer, Htruthy.
    rewrite refreshed_paramsets. apply lookup_insert_eq.
  - intros q g w0 (Haddr & Hproxy & _) Hcached.
    rewrite updateParamset_entity.
    destruct (negb (q =? "")%string); [|assumption].
    rewrite <- Hproxy, Hp, <- Haddr.
    destruct (p w0 _) as [fetched|e] eqn:Hreply; [|assumption].
    destruct (truthy fetched); [|assumption].
    rewrite refreshed_paramsets.
    destruct (String.eqb_spec q ps) as [->|Hother].
    + rewrite Hanswer in Hreply. injection Hreply as <-. apply lookup_insert_eq.
    + now rewrite lookup_insert_ne.
Qed.

(** X6: After [updateParamsets], the cache holds under every declared, non-empty
    name what the proxy gives for it, provided the proxy gives the same
    non-empty paramset each time it is asked. *)
Theorem updateParamsets_fills_the_cache
    (self : HMGeneric) (w : World) (p : Proxy) (names : list string) (ps : string)
    (returnset : pyval) :
  _proxy self = Some p ->
  _PARAMSETS self = Some names ->
  In ps names ->
  ps <> "" ->
  answers p (PGetParamset (_ADDRESS self) ps) returnset ->
  truthy returnset = true ->
  _paramsets (fst (snd (updateParamsets (self, w)))) !! ps = Some returnset.
Proof.
  intros Hp Hnames Hin Hps Hanswer Htruthy.
  rewrite updateParamsets_runs, Hnames. cbn [snd].
  assert (Hne : negb (ps =? "")%string = true)
    by (apply negb_true_iff, String.eqb_neq, Hps).
  apply (refresh_all_establishes (fun g => _paramsets g !! ps = Some returnset) ps); [assumption| |].
  - intros g w0 (Haddr & Hproxy & _).
    rewrite updateParamset_entity, Hne, <- Hproxy, Hp, <- Haddr, Hanswer, Htruthy.
    rewrite refreshed_paramsets. apply lookup_insert_eq.
  - intros q g w0 (Haddr & Hproxy & _) Hcached.
    rewrite updateParamset_entity.
    destruct (negb (q =? "")%string); [|assumption].
    rewrite <- Hproxy, Hp, <- Haddr.
    destruct (p w0 _) as [fetched|e] eqn:Hreply; [|assumption].
    destruct (truthy fetched); [|assumption].
    rewrite refreshed_paramsets.
    destruct (String.eqb_spec q ps) as [->|Hother].
    + rewrite Hanswer in Hreply. injection Hreply as <-. apply lookup_insert_eq.
    + now rewrite lookup_insert_ne.
Qed.

Lemma updateParamsets_fills_the_cache_witness :
  _paramsets (fst (snd (updateParamsets (demo_generic proxy_demo, [])))) !! "MASTER"
  = Some (VDict [("AES_ACTIVE", VBool false)]).
Proof.
  apply (updateParamsets_fills_the_cache (demo_generic proxy_demo) [] proxy_demo
           ["MASTER"; "VALUES"] "MASTER" (VDict [("AES_ACTIVE", VBool false)])).
  - reflexivity.
  - reflexivity.
  - left. reflexivity.
  - discriminate.
  - intros w. reflexivity.
  - reflexivity.
Defined.

(** X7: After [updateParamsets] on an entity that declares ["VALUES"], the flag is
    the ["UNREACH"] field of the values-paramset the proxy gives ([None] if it
    has no such field), provided the proxy gives that same non-empty mapping
    each time; this holds wherever ["VALUES"] stands among the names. *)
Theorem updateParamsets_sets_flag_from_VALUES
    (self : HMGeneric) (w : World) (p : Proxy) (names : list string)
    (item : string * pyval) (items : list (string * pyval)) :
  _proxy self = Some p ->
  _PARAMSETS self = Some names ->
  In "VALUES" names ->
  answers p (PGetParamset (_ADDRESS self) "VALUES") (VDict (item :: items)) ->
  _unreach (fst (snd (updateParamsets (self, w))))
  = default VNone (assoc_get "UNREACH" (item :: items)).
Proof.
  intros Hp Hnames Hin Hanswer.
  rewrite updateParamsets_runs, Hnames. cbn [snd].
  set (values := VDict (item :: items)) in *.
  assert (Hflag : forall q fetched g,
             <[q := fetched]> (_paramsets g) !! PARAMSET_VALUES = Some values ->
             _paramsets (refreshed q fetched g) !! PARAMSET_VALUES = Some values
             /\ _unreach (refreshed q fetched g)
                = default VNone (assoc_get "UNREACH" (item :: items))).
  { intros q fetched g Hcached. rewrite refreshed_paramsets. split; [assumption|].
    unfold refreshed. cbn [set_paramset _paramsets]. rewrite Hcached. reflexivity. }
  enough (Hboth : _paramsets (fst (refresh_all names (self, w))) !! PARAMSET_VALUES
                  = Some values
                  /\ _unreach (fst (refresh_all names (self, w)))
                     = default VNone (assoc_get "UNREACH" (item :: items)))
    by apply Hboth.
  apply (refresh_all_establishes
           (fun g => _paramsets g !! PARAMSET_VALUES = Some values
                     /\ _unreach g = default VNone (assoc_get "UNREACH" (item :: items)))
           "VALUES"); [assumption| |].
  - intros g w0 (Haddr & Hproxy & _).
    rewrite updateParamset_entity. cbn [String.eqb Ascii.eqb Bool.eqb negb].
    rewrite <- Hproxy, Hp, <- Haddr, Hanswer. cbn [truthy values].
    apply Hflag, lookup_insert_eq.
  - intros q g w0 (Haddr & Hproxy & _) [Hcached Hunreach].
    rewrite updateParamset_entity.
    destruct (negb (q =? "")%string); [|auto].
    rewrite <- Hproxy, Hp, <- Haddr.
    destruct (p w0 _) as [fetched|e] eqn:Hreply; [|auto].
    destruct (truthy fetched); [|auto].
    apply Hflag.
    destruct (String.eqb_spec q PARAMSET_VALUES) as [->|Hother].
    + rewrite Hanswer in Hreply. injection Hreply as <-. apply lookup_insert_eq.
    + now rewrite lookup_insert_ne.
Qed.

Lemma updateParamsets_sets_flag_from_VALUES_witness :
  _unreach (fst (snd (updateParamsets (demo_generic proxy_demo, []))))
  = default VNone (assoc_get "UNREACH" [("UNREACH", VBool false); ("STATE", VBool true)]).
Proof.
  apply (updateParamsets_sets_flag_from_VALUES (demo_generic proxy_demo) [] proxy_demo
           ["MASTER"; "VALUES"] ("UNREACH", VBool false) [("STATE", VBool true)]).
  - reflexivity.
  - reflexivity.
  - right. left. reflexivity.
  - intros w. reflexivity.
Defined.

(** The exception of [updateParamset_failure_keeps_entity] is met: a proxy
    that answers with a string makes the refresh of ["VALUES"] return [False]
    with the string stored. *)
Example updateParamset_failure_after_store :
  updateParamset "VALUES" (demo_generic (proxy_const (VStr "busy")), [])
  = (Ret false,
     (set_paramset "VALUES" (VStr "busy") (demo_generic (proxy_const (VStr "busy"))),
      [EProxy (PGetParamset "D001:1" "VALUES")])).
Proof. reflexivity. Qed.

(** ** When a push succeeds *)

(** [putParamset], case by case. *)
Lemma putParamset_runs (self : HMGeneric) (w : World) (paramset : string)
    (data : list (string * pyval)) :
  putParamset paramset data (self, w)
  = match _PARAMSETS self with
    | Some names =>
        if existsb (fun ps => (ps =? paramset)%string) names
           && (match data with [] => false | _ :: _ => true end)
        then
          match _proxy self with
          | Some p =>
              match p w (PPutParamset (_ADDRESS self) paramset data) with
              | Ret _ =>
                  (Ret true,
                   snd (updateParamsets
                          (self, w ++ [EProxy (PPutParamset (_ADDRESS self) paramset data)])))
              | Raise _ =>
                  (Ret false,
                   (self, w ++ [EProxy (PPutParamset (_ADDRESS self) paramset data)]))
              end
          | None => (Ret false, (self, w))
          end
        else (Ret false, (self, w))
    | None => (Ret false, (self, w))
    end.
Proof.
  unfold putParamset, in_PARAMSETS, iter_PARAMSETS, try_except.
  unfold bind at 1. unfold bind at 1.
  destruct (_PARAMSETS self) as [names|] eqn:Hnames; [|reflexivity].
  cbn [ret]. destruct (_ && _); [|reflexivity].
  unfold bind at 1, call_proxy.
  destruct (_proxy self) as [p|]; [|reflexivity].
  destruct (p w _) as [v|e]; [|reflexivity].
  unfold bind. rewrite updateParamsets_runs, Hnames. reflexivity.
Qed.



(** Where the proxy takes the push and fails on the refreshes, [putParamset]
    still returns [True], both refreshes have been tried and the cache is as
    empty as before: what the cache holds afterwards rests on the answers. *)
Example putParamset_success_with_failed_refreshes :
  putParamset "VALUES" [("STATE", VBool true)] (demo_generic proxy_push_only, [])
  = (Ret true,
     (demo_generic proxy_push_only,
      [EProxy (PPutParamset "D001:1" "VALUES" [("STATE", VBool true)]);
       EProxy (PGetParamset "D001:1" "MASTER");
       EProxy (PGetParamset "D001:1" "VALUES")])).
Proof. vm_compute. reflexivity. Qed.

(** The cache [demo_generic] has after a push: both declared paramsets, as
    the proxy gives them. *)
Example putParamset_reconciles_demo :
  _paramsets (fst (snd (putParamset "VALUES" [("STATE", VBool true)]
                          (demo_generic proxy_demo, []))))
  = <["VALUES" := (VDict [("UNREACH", VBool false); ("STATE", VBool true)])]>
      (<["MASTER" := (VDict [("AES_ACTIVE", VBool false)])]> ∅).
Proof. vm_compute. reflexivity. Qed.

(** X8: [putParamset] never raises, and it returns [True] exactly when the name
    is declared, [data] is not empty, a proxy is set and the proxy takes the
    push without a fault; what the refreshes after the push give has no part
    in the result. *)
Theorem putParamset_True_iff_push_accepted
    (self : HMGeneric) (w : World) (paramset : string) (data : list (string * pyval)) :
  (exists b, fst (putParamset paramset data (self, w)) = Ret b)
  /\ (fst (putParamset paramset data (self, w)) = Ret true <->
      exists names p v,
        _PARAMSETS self = Some names /\ In paramset names /\ data <> []
        /\ _proxy self = Some p
        /\ p w (PPutParamset (_ADDRESS self) paramset data) = Ret v).
Proof.
  rewrite putParamset_runs.
  destruct (_PARAMSETS self) as [names|] eqn:Hnames.
  - destruct (existsb _ names) eqn:Hknown; cbn [andb].
    + apply existsb_eqb_In in Hknown. destruct data as [|item data].
      * split; [eauto|]. split; [intros H; discriminate H|].
        intros (? & ? & ? & _ & _ & Hd & _). now destruct Hd.
      * destruct (_proxy self) as [p|] eqn:Hp.
        -- destruct (p w _) as [v|e] eqn:Hreply; cbn [fst].
           ++ split; [eauto|]. split; [|reflexivity].
              intros _. exists names, p, v. repeat split; auto.
           ++ split; [eauto|]. split; [intros H; discriminate H|].
              intros (? & p' & v & _ & _ & _ & Hp' & Hv).
              injection Hp' as <-. congruence.
        -- split; [eauto|]. split; [intros H; discriminate H|].
           intros (? & ? & ? & _ & _ & _ & Hp' & _). discriminate Hp'.
    + split; [eauto|]. split; [intros H; discriminate H|].
      intros (names' & ? & ? & Hn & Hin & _). injection Hn as <-.
      apply existsb_eqb_In in Hin. congruence.
  - split; [eauto|]. split; [intros H; discriminate H|].
    intros (? & ? & ? & Hn & _). discriminate Hn.
Qed.

(** X9: When the proxy raises on the push, [putParamset] returns [False], has sent
    the one request and refreshes nothing: the entity is as before. *)
Theorem putParamset_fault_skips_refresh
    (self : HMGeneric) (w : World) (paramset : string) (data : list (string * pyval))
    (names : list string) (p : Proxy) (e : exn) :
  _PARAMSETS self = Some names ->
  In paramset names ->
  data <> [] ->
  _proxy self = Some p ->
  p w (PPutParamset (_ADDRESS self) paramset data) = Raise e ->
  putParamset paramset data (self, w)
  = (Ret false, (self, w ++ [EProxy (PPutParamset (_ADDRESS self) paramset data)])).
Proof.
  intros Hnames Hin Hdata Hp Hreply.
  rewrite putParamset_runs, Hnames, Hp, Hreply.
  apply existsb_eqb_In in Hin. rewrite Hin.
  destruct data as [|item data]; [now destruct Hdata|reflexivity].
Qed.

Lemma putParamset_fault_skips_refresh_witness :
  putParamset "VALUES" [("STATE", VBool true)] (demo_generic proxy_down, [])
  = (Ret false,
     (demo_generic proxy_down,
      [] ++ [EProxy (PPutParamset (_ADDRESS (demo_generic proxy_down)) "VALUES"
                       [("STATE", VBool true)])])).
Proof.
  apply (putParamset_fault_skips_refresh (demo_generic proxy_down) [] "VALUES"
           [("STATE", VBool true)] ["MASTER"; "VALUES"] proxy_down (Fault "timed out")).
  - reflexivity.
  - right. left. reflexivity.
  - discriminate.
  - reflexivity.
  - reflexivity.
Defined.

(** ** What no method changes *)

Lemma updateParamsets_same_identity (self : HMGeneric) (w : World) :
  same_identity self (fst (snd (updateParamsets (self, w)))).
Proof.
  rewrite updateParamsets_runs.
  destruct (_PARAMSETS self) as [names|]; [|apply same_identity_refl].
  destruct (refresh_all_spec names self w) as (self' & Hall & Hid).
  cbn [snd]. now rewrite Hall.
Qed.

(** X10: The address, the proxy handle, the declared paramset names and the list
    of listeners of an entity are the same after any of [setValue],
    [getValue], [updateParamset], [updateParamsets] and [putParamset],
    however the call ends. *)
Theorem methods_keep_identity
    (self : HMGeneric) (w : World) (key paramset : string) (value : pyval)
    (data : list (string * pyval)) :
  same_identity self (fst (snd (setValue key value (self, w))))
  /\ same_identity self (fst (snd (getValue key (self, w))))
  /\ same_identity self (fst (snd (updateParamset paramset (self, w))))
  /\ same_identity self (fst (snd (updateParamsets (self, w))))
  /\ same_identity self (fst (snd (putParamset paramset data (self, w)))).
Proof.
  split; [|split; [|split; [|split]]].
  - unfold setValue, try_except, bind, call_proxy, ret.
    destruct (_proxy self) as [p|]; [destruct (p w _)|]; apply same_identity_refl.
  - unfold getValue, try_except, bind, call_proxy, ret.
    destruct (_proxy self) as [p|]; [destruct (p w _)|]; apply same_identity_refl.
  - destruct (updateParamset_spec paramset self w) as (b & self' & Hrun & Hid).
    now rewrite Hrun.
  - apply updateParamsets_same_identity.
  - rewrite putParamset_runs.
    destruct (_PARAMSETS self) as [names|]; [|apply same_identity_refl].
    destruct (_ && _); [|apply same_identity_refl].
    destruct (_proxy self) as [p|]; [|apply same_identity_refl].
    destruct (p w _); [|apply same_identity_refl].
    apply updateParamsets_same_identity.
Qed.

(** ** Building a channel *)

(** X11: [HMChannel.__init__] never raises, whatever the proxy does and even
    without [PARAMSETS].  With [resolveparamsets] and a proxy it sends one
    refresh request for every declared non-empty name, in order (nothing
    without a proxy or without [PARAMSETS]), and the channel it builds is the
    refreshed one: its cache holds under every declared name what the proxy
    gives for it, as far as the proxy gives the same non-empty paramset each
    time.  Without [resolveparamsets] nothing is sent, the cache is empty and
    the channel does not count as unreachable.  The address, proxy, names,
    parent and index are those handed in, and no listener is set. *)
Theorem HMChannel_init_pulls_on_request
    (device_description : channel_description) (proxy : option Proxy)
    (resolveparamsets : bool) (w : World) :
  exists self,
    HMChannel_init device_description proxy resolveparamsets w
    = (Ret self,
       if resolveparamsets
       then w ++ concat (map (refresh_request
                                (HMGeneric_init (cd_common device_description) proxy))
                           (default [] (d_PARAMSETS (cd_common device_description))))
       else w)
    /\ same_identity (HMGeneric_init (cd_common device_description) proxy) (ch_generic self)
    /\ _PARENT self = cd_PARENT device_description
    /\ _INDEX self = cd_INDEX device_description
    /\ (if resolveparamsets
        then ch_generic self
             = fst (snd (updateParamsets
                           (HMGeneric_init (cd_common device_description) proxy, w)))
             /\ (forall p names ps returnset,
                   proxy = Some p ->
                   d_PARAMSETS (cd_common device_description) = Some names ->
                   In ps names ->
                   ps <> "" ->
                   answers p (PGetParamset (d_ADDRESS (cd_common device_description)) ps)
                     returnset ->
                   truthy returnset = true ->
                   _paramsets (ch_generic self) !! ps = Some returnset)
        else _paramsets (ch_generic self) = ∅ /\ HMChannel_UNREACH self = false).
Proof.
  unfold HMChannel_init. destruct resolveparamsets.
  - cbn [ch_generic]. rewrite !updateParamsets_runs. cbn [HMGeneric_init _PARAMSETS].
    destruct (d_PARAMSETS (cd_common device_description)) as [names|] eqn:Hnames;
      cbn [default].
    + destruct (refresh_all_spec names (HMGeneric_init (cd_common device_description) proxy) w)
        as (g & Hall & Hid).
      cbn [HMGeneric_init] in Hall. rewrite !Hall.
      eexists. split; [reflexivity|]. split; [exact Hid|].
      split; [reflexivity|]. split; [reflexivity|]. split; [reflexivity|].
      intros p names' ps returnset -> [= <-] Hin Hps Hanswer Htruthy.
      cbn [ch_generic ch_with snd fst].
      replace g with (fst (refresh_all names
                             (HMGeneric_init (cd_common device_description) (Some p), w)))
        by (cbn [HMGeneric_init]; now rewrite Hall).
      now apply (refresh_all_caches _ w p names ps returnset).
    + eexists. cbn [map concat]. rewrite app_nil_r. split; [reflexivity|].
      split; [apply same_identity_refl|].
      split; [reflexivity|]. split; [reflexivity|]. split; [reflexivity|].
      intros p names ps returnset _ Hsome. discriminate Hsome.
  - eexists. split; [reflexivity|]. split; [apply same_identity_refl|].
    repeat split; reflexivity.
Qed.

(** A channel built with [resolveparamsets] against [proxy_demo]: two
    requests, both paramsets cached, the flag taken from ["VALUES"]. *)
Example HMChannel_init_demo :
  HMChannel_init
    {| cd_common := demo_description "D001:1"; cd_PARENT := VStr "D001"; cd_INDEX := VInt 1 |}
    (Some proxy_demo) true []
  = (Ret (ch_with
            (set_unreach (VBool false)
               (set_paramset "VALUES"
                  (VDict [("UNREACH", VBool false); ("STATE", VBool true)])
                  (set_paramset "MASTER" (VDict [("AES_ACTIVE", VBool false)])
                     (demo_generic proxy_demo))))
            (demo_channel 1 "D001:1" proxy_demo)),
     [EProxy (PGetParamset "D001:1" "MASTER"); EProxy (PGetParamset "D001:1" "VALUES")]).
Proof. vm_compute. reflexivity. Qed.

(** ** Listeners and the events they get *)

Lemma event_runs (interface_id key : string) (value : pyval) (g : HMGeneric) (w : World) :
  event interface_id key value (g, w)
  = for_each (_eventcallbacks g) (fun cb => invoke cb interface_id key value)
      (noted g key value, w).
Proof.
  unfold event, noted, bind, gets, modify, ret.
  destruct (key =? PARAM_UNREACH)%string; cbn; reflexivity.
Qed.

Lemma invoke_last (self g : HMGeneric) (interface_id key : string) (value : pyval)
    (pre : list callback) (cb : callback) (w : World) :
  _ADDRESS g = _ADDRESS self ->
  all_return (_ADDRESS self) interface_id key value w pre ->
  for_each (pre ++ [cb]) (fun cb => invoke cb interface_id key value) (g, w)
  = (cb_body cb (w ++ map (fired self interface_id key value) pre)
       (_ADDRESS self) interface_id key value,
     (g, w ++ map (fired self interface_id key value) (pre ++ [cb]))).
Proof.
  intros Haddr. revert w.
  induction pre as [|c pre IH]; intros w Hok; cbn [map app].
  - rewrite (invoke_step self interface_id key value g cb [] w Haddr), app_nil_r.
    destruct (cb_body cb w _ _ _ _) as [[]|e]; reflexivity.
  - destruct Hok as [Hc Hrest].
    rewrite (invoke_step self interface_id key value g c (pre ++ [cb]) w Haddr), Hc.
    rewrite (IH (w ++ [fired self interface_id key value c]) Hrest).
    now rewrite <- !app_assoc.
Qed.

Lemma event_last (g : HMGeneric) (interface_id key : string) (value : pyval)
    (pre : list callback) (cb : callback) (w : World) :
  _eventcallbacks g = pre ++ [cb] ->
  all_return (_ADDRESS g) interface_id key value w pre ->
  event interface_id key value (g, w)
  = (cb_body cb (w ++ map (fired g interface_id key value) pre)
       (_ADDRESS g) interface_id key value,
     (noted g key value, w ++ map (fired g interface_id key value) (pre ++ [cb]))).
Proof.
  intros Hcbs Hok. rewrite event_runs, Hcbs.
  apply invoke_last; [apply noted_same|assumption].
Qed.

(** X12: for listeners that do not call back into the entity: a callable
    registered on a channel is called after the listeners that were there
    before, once these have returned in the delivery, with the channel's own
    address, and what it returns or raises is the outcome of [event]; an
    object that is not callable is not registered. *)
Theorem HMChannel_setEventCallback_then_event
    (self : HMChannel) (cb : callback) (w : World) (interface_id key : string)
    (value : pyval) :
  all_return (_ADDRESS (ch_generic self)) interface_id key value w
    (_eventcallbacks (ch_generic self)) ->
  event interface_id key value
    (ch_generic (HMChannel_setEventCallback (Callable cb) self), w)
  = (cb_body cb
       (w ++ map (fired (ch_generic self) interface_id key value)
               (_eventcallbacks (ch_generic self)))
       (_ADDRESS (ch_generic self)) interface_id key value,
     (noted (append_callback cb (ch_generic self)) key value,
      w ++ map (fired (ch_generic self) interface_id key value)
             (_eventcallbacks (ch_generic self) ++ [cb])))
  /\ forall v, HMChannel_setEventCallback (NotCallable v) self = self.
Proof.
  intros Hok. split; [|reflexivity].
  apply (event_last (append_callback cb (ch_generic self)) interface_id key value
           (_eventcallbacks (ch_generic self)) cb w eq_refl Hok).
Qed.

Lemma HMChannel_setEventCallback_then_event_witness :
  event "BidCos-RF" "STATE" (VBool true)
    (ch_generic (HMChannel_setEventCallback (Callable (cb_failing 3))
                   (HMChannel_setEventCallback (Callable (cb_first_only 4))
                      (demo_channel 1 "D001:1" proxy_demo))), [])
  = (Raise (Fault "listener failed"),
     (noted (append_callback (cb_failing 3)
               (append_callback (cb_first_only 4) (demo_generic proxy_demo)))
        "STATE" (VBool true),
      [ECallback 4 "D001:1" "BidCos-RF" "STATE" (VBool true);
       ECallback 3 "D001:1" "BidCos-RF" "STATE" (VBool true)])).
Proof.
  refine (proj1 (HMChannel_setEventCallback_then_event
                   (HMChannel_setEventCallback (Callable (cb_first_only 4))
                      (demo_channel 1 "D001:1" proxy_demo))
                   (cb_failing 3) [] "BidCos-RF" "STATE" (VBool true) _)).
  split; [reflexivity|exact I].
Defined.

Lemma bequeath_lookup (cb : callback) (channel i : Z) (self : HMDevice) :
  CHILDREN (HMDevice_setEventCallback (Callable cb) true channel self) !! i
  = bequeathed cb <$> (CHILDREN self !! i).
Proof.
  unfold HMDevice_setEventCallback. fold (bequeathed cb).
  destruct (channel =? 0)%Z; cbn; apply lookup_fmap.
Qed.

(** X13: for listeners that do not call back into the entity: a callable
    bequeathed to the channels is called for an event that reaches a channel,
    after that channel's earlier listeners, once these have returned in the
    delivery, and with that channel's address, not the device's; this is so
    whatever [channel] the registration named. *)
Theorem bequeathed_callback_gets_channel_events
    (self : HMDevice) (cb : callback) (channel i : Z) (c : HMChannel) (w : World)
    (interface_id key : string) (value : pyval) :
  CHILDREN self !! i = Some c ->
  all_return (_ADDRESS (ch_generic c)) interface_id key value w
    (_eventcallbacks (ch_generic c)) ->
  fst (on_child i (event interface_id key value)
         (HMDevice_setEventCallback (Callable cb) true channel self, w))
  = cb_body cb
      (w ++ map (fired (ch_generic c) interface_id key value) (_eventcallbacks (ch_generic c)))
      (_ADDRESS (ch_generic c)) interface_id key value
  /\ snd (snd (on_child i (event interface_id key value)
                 (HMDevice_setEventCallback (Callable cb) true channel self, w)))
     = w ++ map (fired (ch_generic c) interface_id key value)
              (_eventcallbacks (ch_generic c) ++ [cb]).
Proof.
  intros Hlookup Hok. unfold on_child.
  rewrite bequeath_lookup, Hlookup. cbn [fmap option_fmap option_map].
  rewrite (event_last (ch_generic (bequeathed cb c)) interface_id key value
             (_eventcallbacks (ch_generic c)) cb w eq_refl Hok).
  split; reflexivity.
Qed.

Lemma bequeathed_callback_gets_channel_events_witness :
  fst (on_child 2 (event "BidCos-RF" "PRESS_SHORT" (VBool true))
         (HMDevice_setEventCallback (Callable (cb_quiet 5)) true 1
            (HMDevice_setEventCallback (Callable (cb_first_only 4)) false 2 demo_device),
          []))
  = Ret tt
  /\ snd (snd (on_child 2 (event "BidCos-RF" "PRESS_SHORT" (VBool true))
                 (HMDevice_setEventCallback (Callable (cb_quiet 5)) true 1
                    (HMDevice_setEventCallback (Callable (cb_first_only 4)) false 2
                       demo_device),
                  [])))
     = [ECallback 4 "D001:2" "BidCos-RF" "PRESS_SHORT" (VBool true);
        ECallback 5 "D001:2" "BidCos-RF" "PRESS_SHORT" (VBool true)].
Proof.
  apply (bequeathed_callback_gets_channel_events
           (HMDevice_setEventCallback (Callable (cb_first_only 4)) false 2 demo_device)
           (cb_quiet 5) 1 2
           (bequeathed (cb_first_only 4) (demo_channel 2 "D001:2" proxy_demo))
           [] "BidCos-RF" "PRESS_SHORT" (VBool true)).
  - vm_compute. reflexivity.
  - split; [reflexivity|exact I].
Defined.

(** X14: Without [bequeath], a callable goes to the device's own list when
    [channel] is 0, to the one named channel when [channel] is positive and
    the device has it, and nowhere otherwise: every other list stays as it
    was.  An object that is not callable changes nothing, with or without
    [bequeath]. *)
Theorem setEventCallback_without_bequeath
    (cb : callback) (channel : Z) (self : HMDevice) :
  _eventcallbacks (dev_generic (HMDevice_setEventCallback (Callable cb) false channel self))
  = (if (channel =? 0)%Z
     then _eventcallbacks (dev_generic self) ++ [cb]
     else _eventcallbacks (dev_generic self))
  /\ (forall i : Z,
        CHILDREN (HMDevice_setEventCallback (Callable cb) false channel self) !! i
        = if (0 <? channel)%Z && (i =? channel)%Z
          then bequeathed cb <$> (CHILDREN self !! i)
          else CHILDREN self !! i)
  /\ (forall v bequeath, HMDevice_setEventCallback (NotCallable v) bequeath channel self = self).
Proof.
  split; [|split; [|reflexivity]].
  - unfold HMDevice_setEventCallback.
    destruct (channel =? 0)%Z; [reflexivity|].
    destruct (_ && _); reflexivity.
  - intros i. unfold HMDevice_setEventCallback. fold (bequeathed cb).
    destruct (Z.eqb_spec channel 0) as [->|Hnonzero]; [reflexivity|].
    cbn [negb andb]. rewrite Z.gtb_ltb.
    destruct (0 <? channel)%Z; cbn [andb]; [|reflexivity].
    case_bool_decide as Hchild; cbn [dev_with_children CHILDREN].
    + rewrite lookup_alter. destruct (Z.eqb_spec i channel) as [->|Hother].
      * now rewrite decide_True.
      * now rewrite decide_False by congruence.
    + destruct (Z.eqb_spec i channel) as [->|Hother]; [|reflexivity].
      destruct (CHILDREN self !! channel) eqn:Hc; [|reflexivity].
      exfalso. apply Hchild. eauto.
Qed.
